(** * User-Management-Dashboard: the query pipeline and the validation engine

    A shallow embedding of [src/utils/validation.ts], of the derived-state
    pipeline and the handlers of [src/App.tsx], and of the record builders of
    [src/services/api.ts], followed by the properties proved about them.

    Modelling conventions.
    - A JavaScript string is the list of its UTF-16 code units ([jsstring]).
    - A JavaScript [number] that holds an identifier, a page index, a page
      size or a comparator result is an integer of [Z]; the identifiers and
      lengths the program handles are far below 2^53, where the arithmetic of
      doubles used here ([+ 1], [-], [Math.max], [Math.ceil] of a quotient)
      is exact.
    - [useState] cells are fields of one record, [setX (prev => f prev)] is
      the state transformer [f].
    - [String.prototype.toLowerCase] is a host function of the full Unicode
      case mapping: it is a parameter of the pipeline.  [asciiLowerCase] is
      the instance used on ASCII data. *)

From Stdlib Require Import List Bool Arith ZArith NArith Lia.
From Stdlib Require Import Ascii String.
From Stdlib Require Import Permutation Sorted.
Import ListNotations.

Set Implicit Arguments.

(* ================================================================== *)
(** * JavaScript strings *)
(* ================================================================== *)

Module JS.

Definition jsstring : Type := list N.

(** An ASCII literal of the source as a [jsstring]. *)
Definition js (s : string) : jsstring :=
  map N_of_ascii (list_ascii_of_string s).
Arguments js s%_string.

(** Truthiness of a string: [if (s)], [!s]. *)
Definition truthy (s : jsstring) : bool :=
  match s with [] => false | _ :: _ => true end.

Fixpoint str_eqb (a b : jsstring) : bool :=
  match a, b with
  | [], [] => true
  | x :: a', y :: b' => (x =? y)%N && str_eqb a' b'
  | _, _ => false
  end.

(** [a < b] on strings: lexicographic on code units. *)
Fixpoint str_ltb (a b : jsstring) : bool :=
  match a, b with
  | _, [] => false
  | [], _ :: _ => true
  | x :: a', y :: b' =>
      if (x <? y)%N then true
      else if (y <? x)%N then false
      else str_ltb a' b'
  end.

Fixpoint startsWith (s t : jsstring) : bool :=
  match t, s with
  | [], _ => true
  | _ :: _, [] => false
  | c :: t', d :: s' => (c =? d)%N && startsWith s' t'
  end.

(** [s.includes(t)]. *)
Fixpoint includes (s t : jsstring) : bool :=
  startsWith s t ||
  match s with
  | [] => false
  | _ :: s' => includes s' t
  end.

Definition in_range (lo hi c : N) : bool := ((lo <=? c) && (c <=? hi))%N.

(** [\d] (no [u] flag): the ASCII digits. *)
Definition is_digit (c : N) : bool := in_range 48 57 c.
Definition is_upper (c : N) : bool := in_range 65 90 c.
Definition is_lower (c : N) : bool := in_range 97 122 c.
(** [a-zA-Z] and [a-zA-Z0-9]. *)
Definition is_alpha (c : N) : bool := is_lower c || is_upper c.
Definition is_alnum (c : N) : bool := is_alpha c || is_digit c.

(** Membership of a code unit in the characters of a literal. *)
Definition one_of (cs : jsstring) (c : N) : bool := existsb (N.eqb c) cs.

(** WhiteSpace and LineTerminator of ECMAScript: what [trim] strips and what
    [\s] matches.  TAB LF VT FF CR SP NBSP, U+1680, U+2000..U+200A, LS, PS,
    U+202F, U+205F, U+3000, U+FEFF. *)
Definition is_space (c : N) : bool :=
  in_range 9 13 c || (c =? 32)%N || (c =? 160)%N || (c =? 5760)%N
  || in_range 8192 8202 c || (c =? 8232)%N || (c =? 8233)%N
  || (c =? 8239)%N || (c =? 8287)%N || (c =? 12288)%N || (c =? 65279)%N.

Fixpoint trimStart (s : jsstring) : jsstring :=
  match s with
  | [] => []
  | c :: s' => if is_space c then trimStart s' else s
  end.

Definition trimEnd (s : jsstring) : jsstring := rev (trimStart (rev s)).

Definition trim (s : jsstring) : jsstring := trimEnd (trimStart s).

(** [toLowerCase] restricted to ASCII data: [A-Z] goes to [a-z]. *)
Definition asciiLowerCase (s : jsstring) : jsstring :=
  map (fun c => if is_upper c then (c + 32)%N else c) s.

End JS.
Import JS.

(* ================================================================== *)
(** * Regular expressions: the fragment the validators use *)
(* ================================================================== *)

Module Regex.

(** Patterns.  [Void] matches nothing and only arises in derivatives. *)
Inductive regex : Type :=
| Void : regex
| Eps : regex
| Class : (N -> bool) -> regex
| Cat : regex -> regex -> regex
| Alt : regex -> regex -> regex
| Star : regex -> regex.

(** [r?], [r+] and [r{0,n}]. *)
Definition Opt (r : regex) : regex := Alt r Eps.
Definition Plus (r : regex) : regex := Cat r (Star r).
Fixpoint Upto (n : nat) (r : regex) : regex :=
  match n with
  | O => Eps
  | S k => Opt (Cat r (Upto k r))
  end.

(** The strings a pattern matches from its first to its last character. *)
Inductive lang : regex -> jsstring -> Prop :=
| L_eps : lang Eps []
| L_class p c : p c = true -> lang (Class p) [c]
| L_cat r1 r2 s1 s2 : lang r1 s1 -> lang r2 s2 -> lang (Cat r1 r2) (s1 ++ s2)
| L_alt_l r1 r2 s : lang r1 s -> lang (Alt r1 r2) s
| L_alt_r r1 r2 s : lang r2 s -> lang (Alt r1 r2) s
| L_star_nil r : lang (Star r) []
| L_star_app r s1 s2 :
    lang r s1 -> lang (Star r) s2 -> lang (Star r) (s1 ++ s2).

Fixpoint nullable (r : regex) : bool :=
  match r with
  | Void => false
  | Eps => true
  | Class _ => false
  | Cat r1 r2 => nullable r1 && nullable r2
  | Alt r1 r2 => nullable r1 || nullable r2
  | Star _ => true
  end.

Definition cat' (r1 r2 : regex) : regex :=
  match r1, r2 with
  | Void, _ => Void
  | _, Void => Void
  | Eps, _ => r2
  | _, _ => Cat r1 r2
  end.

Definition alt' (r1 r2 : regex) : regex :=
  match r1, r2 with
  | Void, _ => r2
  | _, Void => r1
  | _, _ => Alt r1 r2
  end.

(** Brzozowski derivative: what is left to match after reading [c]. *)
Fixpoint deriv (c : N) (r : regex) : regex :=
  match r with
  | Void => Void
  | Eps => Void
  | Class p => if p c then Eps else Void
  | Cat r1 r2 =>
      alt' (cat' (deriv c r1) r2) (if nullable r1 then deriv c r2 else Void)
  | Alt r1 r2 => alt' (deriv c r1) (deriv c r2)
  | Star r1 => cat' (deriv c r1) (Star r1)
  end.

(** [/^r$/.test(s)] for a pattern without flags. *)
Fixpoint test (r : regex) (s : jsstring) : bool :=
  match s with
  | [] => nullable r
  | c :: s' => test (deriv c r) s'
  end.

End Regex.
Import Regex.

(* ================================================================== *)
(** * src/utils/validation.ts *)
(* ================================================================== *)

Module Validation.

Record ValidationResult : Type := mkResult {
  isValid : bool;
  message : jsstring
}.

(** [[a-zA-Z0-9.!#$%&'*+/=?^_`{|}~-]] *)
Definition email_local (c : N) : bool :=
  is_alnum c || one_of (js ".!#$%&'*+/=?^_`{|}~-") c.

(** [[a-zA-Z0-9-]] *)
Definition alnum_hyphen (c : N) : bool := is_alnum c || one_of (js "-") c.

(** [[a-zA-Z0-9](?:[a-zA-Z0-9-]{0,61}[a-zA-Z0-9])?] *)
Definition label : regex :=
  Cat (Class is_alnum)
      (Opt (Cat (Upto 61 (Class alnum_hyphen)) (Class is_alnum))).

(** The pattern of [validateEmail], between [^] and [$]:
    local part [+], [@], a label, then [(?:\.label)*]. *)
Definition emailRegex : regex :=
  Cat (Plus (Class email_local))
      (Cat (Class (one_of (js "@")))
           (Cat label (Star (Cat (Class (one_of (js "."))) label)))).

Definition validateEmail (email : jsstring) : ValidationResult :=
  if negb (truthy (trim email)) then
    mkResult false (js "Email is required")
  else
    let isValid := test emailRegex (trim email) in
    mkResult isValid
      (if isValid then js ""
       else js "Please enter a valid email address (e.g., name@example.com)").

(** [[\d\s\-\(\)\.\+]] *)
Definition phone_class (c : N) : bool :=
  is_digit c || is_space c || one_of (js "-().+") c.

(** [/^[\+]?[\d\s\-\(\)\.\+]+$/] *)
Definition phoneRegex : regex :=
  Cat (Opt (Class (one_of (js "+")))) (Plus (Class phone_class)).

(** [phone.replace(/\D/g, '')] *)
Definition digitsOnly (phone : jsstring) : jsstring := filter is_digit phone.

Definition validatePhone (phone : jsstring) : ValidationResult :=
  if negb (truthy (trim phone)) then
    mkResult false (js "Phone number is required")
  else if (List.length (digitsOnly phone) <? 10)%nat then
    mkResult false (js "Phone number must contain at least 10 digits")
  else
    let isValid := test phoneRegex (trim phone) in
    mkResult isValid
      (if isValid then js "" else js "Please enter a valid phone number").

(** [[a-zA-Z\s\-'\.]] *)
Definition name_class (c : N) : bool :=
  is_alpha c || is_space c || one_of (js "-'.") c.

(** [/^[a-zA-Z\s\-'\.]+$/] *)
Definition nameRegex : regex := Plus (Class name_class).

Definition validateName (name : jsstring) : ValidationResult :=
  if negb (truthy (trim name)) then
    mkResult false (js "Name is required")
  else
    let trimmedName := trim name in
    if (List.length trimmedName <? 2)%nat then
      mkResult false (js "Name must be at least 2 characters long")
    else
      let isValid := test nameRegex trimmedName in
      mkResult isValid
        (if isValid then js ""
         else js "Name can only contain letters, spaces, hyphens, and apostrophes").

Definition validDepartments : list jsstring :=
  [ js "Engineering"; js "Marketing"; js "Sales"; js "Human Resources";
    js "Finance"; js "Operations"; js "Customer Support"; js "IT";
    js "Legal" ].

Definition validateDepartment (department : jsstring) : ValidationResult :=
  if negb (truthy (trim department)) then
    mkResult false (js "Department is required")
  else
    let isValid := existsb (str_eqb department) validDepartments in
    mkResult isValid
      (if isValid then js "" else js "Please select a valid department").

(** A JavaScript object with string keys: the entries in insertion order,
    which is the order of [Object.values]. *)
Definition object (V : Type) : Type := list (string * V).

Fixpoint get {V : Type} (o : object V) (k : string) : option V :=
  match o with
  | [] => None
  | (k', v) :: o' => if String.eqb k' k then Some v else get o' k
  end.

(** [o[k] = v]: an existing key keeps its place, a new key goes last. *)
Fixpoint set {V : Type} (o : object V) (k : string) (v : V) : object V :=
  match o with
  | [] => [(k, v)]
  | (k', v') :: o' =>
      if String.eqb k' k then (k', v) :: o' else (k', v') :: set o' k v
  end.

Definition values {V : Type} (o : object V) : list V := map snd o.

(** [formData.k || '']: a missing key reads as [undefined]. *)
Definition field_or_empty (formData : object jsstring) (k : string) : jsstring :=
  match get formData k with
  | Some v => if truthy v then v else js ""
  | None => js ""
  end.

Definition validateEmployeeForm (formData : object jsstring)
  : object ValidationResult :=
  let errors := [] in
  let errors := set errors "name" (validateName (field_or_empty formData "name")) in
  let errors := set errors "email" (validateEmail (field_or_empty formData "email")) in
  let errors := set errors "phone" (validatePhone (field_or_empty formData "phone")) in
  let errors :=
    set errors "department"
      (validateDepartment (field_or_empty formData "department")) in
  errors.

Definition isFormValid (errors : object ValidationResult) : bool :=
  forallb isValid (values errors).

Definition getFirstErrorMessage (errors : object ValidationResult) : jsstring :=
  match find (fun error => negb (isValid error)) (values errors) with
  | Some firstError => message firstError
  | None => js ""
  end.

End Validation.
Import Validation.

(* ================================================================== *)
(** * src/types/Employee.ts *)
(* ================================================================== *)

Module Types.

Record Geo : Type := mkGeo { lat : jsstring; lng : jsstring }.

Record Address : Type := mkAddress {
  street : jsstring;
  suite : jsstring;
  city : jsstring;
  zipcode : jsstring;
  geo : Geo
}.

Module Company.
Record t : Type := mk {
  name : jsstring;
  catchPhrase : jsstring;
  bs : jsstring
}.
End Company.

Module Employee.
Record t : Type := mk {
  id : Z;
  name : jsstring;
  username : jsstring;
  email : jsstring;
  phone : jsstring;
  website : jsstring;
  address : Address;
  company : Company.t
}.
End Employee.

(** What [response.json()] gives where the service types it [Employee]
    (api.ts line 32), an object: the cast checks nothing, so each key of
    [Employee] is present, with a value of its type, or absent. *)
Module Body.
Record t : Type := mk {
  id : option Z;
  name : option jsstring;
  username : option jsstring;
  email : option jsstring;
  phone : option jsstring;
  website : option jsstring;
  address : option Address;
  company : option Company.t
}.
End Body.

Module EmployeeFormData.
Record t : Type := mk {
  name : jsstring;
  email : jsstring;
  phone : jsstring;
  department : jsstring
}.
End EmployeeFormData.

(** [SortConfig['key']] and [SortConfig['direction']]. *)
Inductive SortKey : Type := K_id | K_name | K_email | K_phone | K_department.
Inductive Direction : Type := asc | desc.

Record SortConfig : Type := mkSort { key : SortKey; direction : Direction }.

Module ApiError.
Record t : Type := mk { message : jsstring; status : option Z }.
End ApiError.

(** The body that carries every key of [e], as [JSON.stringify] writes
    it and a server echoes it. *)
Definition complete (e : Employee.t) : Body.t :=
  Body.mk (Some (Employee.id e)) (Some (Employee.name e))
    (Some (Employee.username e)) (Some (Employee.email e))
    (Some (Employee.phone e)) (Some (Employee.website e))
    (Some (Employee.address e)) (Some (Employee.company e)).

(** The object without keys. *)
Definition noKeys : Body.t :=
  Body.mk None None None None None None None None.

Definition SortKey_eqb (a b : SortKey) : bool :=
  match a, b with
  | K_id, K_id | K_name, K_name | K_email, K_email
  | K_phone, K_phone | K_department, K_department => true
  | _, _ => false
  end.

End Types.
Import Types.

(* ================================================================== *)
(** * Arrays and numbers *)
(* ================================================================== *)

Module Arrays.

Section Sort.
Variable A : Type.
Variable compareFn : A -> A -> Z.

(** [x] goes in front of the first element it does not come after. *)
Fixpoint insert (x : A) (l : list A) : list A :=
  match l with
  | [] => [x]
  | y :: l' => if (compareFn x y <=? 0)%Z then x :: l else y :: insert x l'
  end.

(** [[...l].sort(compareFn)]: the sort of ECMAScript is stable, and for a
    consistent comparator its result is the one a stable insertion sort
    gives. *)
Definition sort (l : list A) : list A := fold_right insert [] l.

End Sort.

(** [l.slice(start, end)], negative indices counted from the end. *)
Definition slice {A : Type} (l : list A) (start end_ : Z) : list A :=
  let len := Z.of_nat (List.length l) in
  let k := if (start <? 0)%Z then Z.max (len + start) 0 else Z.min start len in
  let final := if (end_ <? 0)%Z then Z.max (len + end_) 0 else Z.min end_ len in
  firstn (Z.to_nat (final - k)) (skipn (Z.to_nat k) l).

(** [Math.max(...l, z)]. *)
Definition Math_max (l : list Z) (z : Z) : Z := fold_right Z.max z l.

(** Identifiers are numbers, that is doubles, with integer values here.
    [roundDouble z] is the double nearest to the integer [z], ties going to
    the even significand of 53 bits: below [2^53] every integer is a
    double, from there on the doubles are [2^e] apart. *)
Definition roundDouble (z : Z) : Z :=
  let a := Z.abs z in
  if (a <? 2 ^ 53)%Z then z
  else
    let e := (Z.log2 a - 52)%Z in
    let q := (a / 2 ^ e)%Z in
    let r := (a mod 2 ^ e)%Z in
    let half := (2 ^ (e - 1))%Z in
    let q' :=
      if (r <? half)%Z then q
      else if (half <? r)%Z then (q + 1)%Z
      else if Z.even q then q else (q + 1)%Z in
    (Z.sgn z * (q' * 2 ^ e))%Z.

(** [x + y] on numbers with integer values. *)
Definition addNumber (x y : Z) : Z := roundDouble (x + y).

(** [Number.MAX_SAFE_INTEGER]. *)
Definition MAX_SAFE_INTEGER : Z := (2 ^ 53 - 1)%Z.

(** [Math.ceil(n / d)] for an array length [n] and a positive [d]; the
    quotient of doubles never rounds across an integer on such operands.
    (For [d = 0] the code has [Infinity] or [NaN], which no page size the
    component offers reaches.) *)
Definition Math_ceil_div (n d : Z) : Z := (- ((- n) / d))%Z.

End Arrays.
Import Arrays.

(* ================================================================== *)
(** * src/services/api.ts: the records the service builds *)
(* ================================================================== *)

Module Api.

(** [s.replace(/\s+/g, '.')]: every maximal run of white space becomes one
    dot.  [in_run] tells that the previous code unit was white space. *)
Fixpoint replace_spaces (in_run : bool) (s : jsstring) : jsstring :=
  match s with
  | [] => []
  | c :: s' =>
      if is_space c then
        if in_run then replace_spaces true s'
        else 46%N :: replace_spaces true s'
      else c :: replace_spaces false s'
  end.

Section Service.
Variable toLowerCase : jsstring -> jsstring.

(** Lines 79-112.  [response] is the body the server answered with, [now]
    is [Date.now()].  Every key of [newEmployee] overrides the response, and
    [id] is written last: [response.id || Date.now()], where a missing
    identifier and 0 are falsy. *)
Definition createEmployee (employeeData : EmployeeFormData.t)
    (response : Body.t) (now : Z) : Employee.t :=
  Employee.mk
    (match Body.id response with
     | Some i => if (i =? 0)%Z then now else i
     | None => now
     end)
    (EmployeeFormData.name employeeData)
    (replace_spaces false (toLowerCase (EmployeeFormData.name employeeData)))
    (EmployeeFormData.email employeeData)
    (EmployeeFormData.phone employeeData)
    (js "example.com")
    (mkAddress (js "Main Street") (js "Suite 100") (js "Anytown")
               (js "12345-6789") (mkGeo (js "0.0000") (js "0.0000")))
    (Company.mk (EmployeeFormData.department employeeData)
                (js "Innovative solutions for modern business")
                (js "synergistic value-added solutions")).

(** Lines 120-142: the body [updateEmployee] sends with its PUT. *)
Definition updatedEmployee (id : Z) (employeeData : EmployeeFormData.t)
  : Employee.t :=
  Employee.mk
    id
    (EmployeeFormData.name employeeData)
    (replace_spaces false (toLowerCase (EmployeeFormData.name employeeData)))
    (EmployeeFormData.email employeeData)
    (EmployeeFormData.phone employeeData)
    (js "example.com")
    (mkAddress (js "Main Street") (js "Suite 100") (js "Anytown")
               (js "12345-6789") (mkGeo (js "0.0000") (js "0.0000")))
    (Company.mk (EmployeeFormData.department employeeData)
                (js "Updated company information")
                (js "updated business solutions")).

(** Lines 144-147: [updateEmployee] returns what the server answered,
    as [request] parsed it. *)
Definition updateEmployee (id : Z) (employeeData : EmployeeFormData.t)
    (response : Body.t) : Body.t := response.

End Service.

End Api.
Import Api.

(* ================================================================== *)
(** * src/App.tsx: the derived-state pipeline *)
(* ================================================================== *)

Module App.

Section Pipeline.
Variable toLowerCase : jsstring -> jsstring.

(** The predicate of the search filter, lines 107-113. *)
Definition matchesTerm (term : jsstring) (employee : Employee.t) : bool :=
  includes (toLowerCase (Employee.name employee)) term
  || includes (toLowerCase (Employee.email employee)) term
  || includes (toLowerCase (Company.name (Employee.company employee))) term
  || includes (toLowerCase (Employee.phone employee)) term
  || includes (toLowerCase (Employee.username employee)) term.

(** Lines 101-124. *)
Definition filteredEmployees (employees : list Employee.t)
    (searchTerm departmentFilter : jsstring) : list Employee.t :=
  let filtered := employees in
  let filtered :=
    if truthy searchTerm then
      let term := trim (toLowerCase searchTerm) in
      filter (matchesTerm term) filtered
    else filtered in
  let filtered :=
    if truthy departmentFilter then
      filter (fun employee =>
                str_eqb (Company.name (Employee.company employee))
                        departmentFilter) filtered
    else filtered in
  filtered.

(** The string a non-numeric column sorts on, lines 138-158. *)
Definition columnText (k : SortKey) (e : Employee.t) : jsstring :=
  match k with
  | K_department => Company.name (Employee.company e)
  | K_name => Employee.name e
  | K_email => Employee.email e
  | K_phone => Employee.phone e
  | K_id => js ""
  end.

(** The comparator of lines 133-182.  The [default:] arm of the switch is
    excluded by the type of [key]. *)
Definition compareEmployees (sortConfig : SortConfig) (a b : Employee.t) : Z :=
  match key sortConfig with
  | K_id =>
      let numA := Employee.id a in
      let numB := Employee.id b in
      match direction sortConfig with
      | asc => numA - numB
      | desc => numB - numA
      end
  | k =>
      let strA := toLowerCase (columnText k a) in
      let strB := toLowerCase (columnText k b) in
      if str_ltb strA strB then
        match direction sortConfig with asc => -1 | desc => 1 end
      else if str_ltb strB strA then
        match direction sortConfig with asc => 1 | desc => -1 end
      else 0
  end%Z.

(** Lines 130-183. *)
Definition sortedEmployees (filteredEmployees : list Employee.t)
    (sortConfig : option SortConfig) : list Employee.t :=
  match sortConfig with
  | None => filteredEmployees
  | Some cfg => sort (compareEmployees cfg) filteredEmployees
  end.

End Pipeline.

(** The updater of [handleSort], lines 190-202. *)
Definition handleSort (key0 : SortKey) (prevSort : option SortConfig)
  : option SortConfig :=
  match prevSort with
  | Some prev =>
      if SortKey_eqb (key prev) key0 then
        match direction prev with
        | asc => Some (mkSort key0 desc)
        | desc => None
        end
      else Some (mkSort key0 asc)
  | None => Some (mkSort key0 asc)
  end.

(** Lines 208-211. *)
Definition paginatedEmployees (sortedEmployees : list Employee.t)
    (currentPage pageSize : Z) : list Employee.t :=
  let startIndex := ((currentPage - 1) * pageSize)%Z in
  slice sortedEmployees startIndex (startIndex + pageSize).

(** Line 216. *)
Definition totalPages (sortedEmployees : list Employee.t) (pageSize : Z) : Z :=
  Math_ceil_div (Z.of_nat (List.length sortedEmployees)) pageSize.

(** ** The state cells of the component, lines 28-47 *)

Record State : Type := mkState {
  employees : list Employee.t;
  loading : bool;
  error : option ApiError.t;
  retrying : bool;
  showForm : bool;
  editingEmployee : option Employee.t;
  formLoading : bool;
  searchTerm : jsstring;
  departmentFilter : jsstring;
  sortConfig : option SortConfig;
  currentPage : Z;
  pageSize : Z
}.

Definition initialState : State :=
  mkState [] true None false false None false (js "") (js "") None 1 10.

Definition setEmployees (f : list Employee.t -> list Employee.t) (s : State) :=
  mkState (f (employees s)) (loading s) (error s) (retrying s) (showForm s)
    (editingEmployee s) (formLoading s) (searchTerm s) (departmentFilter s)
    (sortConfig s) (currentPage s) (pageSize s).

Definition setError (e : option ApiError.t) (s : State) :=
  mkState (employees s) (loading s) e (retrying s) (showForm s)
    (editingEmployee s) (formLoading s) (searchTerm s) (departmentFilter s)
    (sortConfig s) (currentPage s) (pageSize s).

Definition setShowForm (b : bool) (s : State) :=
  mkState (employees s) (loading s) (error s) (retrying s) b
    (editingEmployee s) (formLoading s) (searchTerm s) (departmentFilter s)
    (sortConfig s) (currentPage s) (pageSize s).

Definition setEditingEmployee (e : option Employee.t) (s : State) :=
  mkState (employees s) (loading s) (error s) (retrying s) (showForm s)
    e (formLoading s) (searchTerm s) (departmentFilter s)
    (sortConfig s) (currentPage s) (pageSize s).

Definition setFormLoading (b : bool) (s : State) :=
  mkState (employees s) (loading s) (error s) (retrying s) (showForm s)
    (editingEmployee s) b (searchTerm s) (departmentFilter s)
    (sortConfig s) (currentPage s) (pageSize s).

Definition setSortConfig (f : option SortConfig -> option SortConfig)
    (s : State) :=
  mkState (employees s) (loading s) (error s) (retrying s) (showForm s)
    (editingEmployee s) (formLoading s) (searchTerm s) (departmentFilter s)
    (f (sortConfig s)) (currentPage s) (pageSize s).

Definition setCurrentPage (p : Z) (s : State) :=
  mkState (employees s) (loading s) (error s) (retrying s) (showForm s)
    (editingEmployee s) (formLoading s) (searchTerm s) (departmentFilter s)
    (sortConfig s) p (pageSize s).

Definition setPageSize (n : Z) (s : State) :=
  mkState (employees s) (loading s) (error s) (retrying s) (showForm s)
    (editingEmployee s) (formLoading s) (searchTerm s) (departmentFilter s)
    (sortConfig s) (currentPage s) n.

Section Handlers.
Variable toLowerCase : jsstring -> jsstring.

(** The three derived values of a render. *)
Definition filteredOf (s : State) : list Employee.t :=
  filteredEmployees toLowerCase (employees s) (searchTerm s) (departmentFilter s).

Definition sortedOf (s : State) : list Employee.t :=
  sortedEmployees toLowerCase (filteredOf s) (sortConfig s).

Definition paginatedOf (s : State) : list Employee.t :=
  paginatedEmployees (sortedOf s) (currentPage s) (pageSize s).

Definition totalPagesOf (s : State) : Z := totalPages (sortedOf s) (pageSize s).

(** Lines 221-225. *)
Definition handlePageChange (page : Z) (s : State) : State :=
  if ((page >=? 1) && (page <=? totalPagesOf s))%Z then setCurrentPage page s
  else s.

End Handlers.

(** A click on a column header: [setSortConfig] with the updater of
    [handleSort], then the effect of lines 238-240, which runs because the
    sort configuration is a new value after every toggle. *)
Definition sortClick (key0 : SortKey) (s : State) : State :=
  setCurrentPage 1 (setSortConfig (handleSort key0) s).

(** Lines 230-233. *)
Definition handlePageSizeChange (newPageSize : Z) (s : State) : State :=
  setCurrentPage 1 (setPageSize newPageSize s).

(** ** Create and update, lines 262-304 *)

Definition withId (e : Employee.t) (i : Z) : Employee.t :=
  Employee.mk i (Employee.name e) (Employee.username e) (Employee.email e)
    (Employee.phone e) (Employee.website e) (Employee.address e)
    (Employee.company e).

(** One key of a spread: the later object's value if it has the key. *)
Definition pick {A : Type} (later : option A) (earlier : A) : A :=
  match later with Some v => v | None => earlier end.

(** [{ ...emp, ...updatedEmployee }]: a key the answer carries overrides
    the one of [emp], a key it lacks leaves the one of [emp].  (An answer
    that is [undefined], as a mocked service gives, spreads like the object
    without keys.) *)
Definition spread (emp : Employee.t) (updatedEmployee : Body.t) : Employee.t :=
  Employee.mk
    (pick (Body.id updatedEmployee) (Employee.id emp))
    (pick (Body.name updatedEmployee) (Employee.name emp))
    (pick (Body.username updatedEmployee) (Employee.username emp))
    (pick (Body.email updatedEmployee) (Employee.email emp))
    (pick (Body.phone updatedEmployee) (Employee.phone emp))
    (pick (Body.website updatedEmployee) (Employee.website emp))
    (pick (Body.address updatedEmployee) (Employee.address emp))
    (pick (Body.company updatedEmployee) (Employee.company emp)).

(** Lines 272-276. *)
Definition applyUpdate (editing : Employee.t) (updatedEmployee : Body.t)
    (prev : list Employee.t) : list Employee.t :=
  map (fun emp =>
         if (Employee.id emp =? Employee.id editing)%Z
         then spread emp updatedEmployee
         else emp) prev.

(** Lines 285-289.  [employees] is the collection of the render the handler
    was created in, [prev] the collection at the time of the update;
    [maxId + 1] is an addition of numbers. *)
Definition addCreated (employees : list Employee.t) (newEmployee : Employee.t)
    (prev : list Employee.t) : list Employee.t :=
  let maxId := Math_max (map Employee.id employees) 0 in
  let employeeWithId := withId newEmployee (addNumber maxId 1) in
  employeeWithId :: prev.

(** What an awaited call of the service gave. *)
Inductive outcome (A : Type) : Type :=
| Resolved : A -> outcome A
| Rejected : ApiError.t -> outcome A.
Arguments Resolved {A} _.
Arguments Rejected {A} _.

Section Save.
Variable toLowerCase : jsstring -> jsstring.

(** [handleFormSave].  [render] is the state of the render the handler
    was created in: the handler reads [editingEmployee] and [employees] from
    it (line 304).  [result] is how the request of the service call settled
    (the parsed body, or the error [request] throws, which both service
    functions let through), [now] is [Date.now()] at that time, [s] the
    state the updates are applied to; the second component is the error the
    handler throws again. *)
Definition handleFormSave (render : State) (formData : EmployeeFormData.t)
    (now : Z) (result : outcome Body.t) (s : State)
  : State * option ApiError.t :=
  let s := setFormLoading true s in
  match result with
  | Resolved response =>
      let s :=
        match editingEmployee render with
        | Some editing =>
            let updatedEmployee :=
              updateEmployee (Employee.id editing) formData response in
            setEmployees (applyUpdate editing updatedEmployee) s
        | None =>
            let newEmployee :=
              createEmployee toLowerCase formData response now in
            setEmployees (addCreated (employees render) newEmployee) s
        end in
      let s := setShowForm false s in
      let s := setEditingEmployee None s in
      (setFormLoading false s, None)
  | Rejected err => (setFormLoading false s, Some err)
  end.

End Save.

(** ** Delete, lines 310-337 *)

(** Line 322. *)
Definition removeEmployee (employee : Employee.t) (prev : list Employee.t)
  : list Employee.t :=
  filter (fun emp => negb (Employee.id emp =? Employee.id employee)%Z) prev.

(** Line 332. *)
Definition restoreEmployee (employee : Employee.t) (prev : list Employee.t)
  : list Employee.t :=
  sort (fun a b => (Employee.id a - Employee.id b)%Z) (prev ++ [employee]).

(** What the handler does to the outside and to the state cells, in the
    order it does it. *)
Inductive event : Type :=
| Ev_confirm (prompt : jsstring)
| Ev_setEmployees (next : list Employee.t)
| Ev_deleteEmployee (id : Z)
| Ev_setError (e : option ApiError.t).

(** A handler: a state transformer that logs its events. *)
Definition M (A : Type) : Type := State -> A * State * list event.

Definition ret {A : Type} (a : A) : M A := fun s => (a, s, []).

Definition bind {A B : Type} (m : M A) (k : A -> M B) : M B :=
  fun s =>
    let '(a, s1, log1) := m s in
    let '(b, s2, log2) := k a s1 in
    (b, s2, log1 ++ log2).

Notation "x <- m ;; k" := (bind m (fun x => k))
  (at level 61, m at next level, right associativity).
Notation "m ;;; k" := (bind m (fun _ => k))
  (at level 61, right associativity).

Definition do_setEmployees (f : list Employee.t -> list Employee.t) : M unit :=
  fun s => (tt, setEmployees f s, [Ev_setEmployees (f (employees s))]).

Definition do_setError (e : option ApiError.t) : M unit :=
  fun s => (tt, setError e s, [Ev_setError e]).

(** [window.confirm(prompt)], answered with [answer]. *)
Definition window_confirm (prompt : jsstring) (answer : bool) : M bool :=
  fun s => (answer, s, [Ev_confirm prompt]).

(** [await apiService.deleteEmployee(id)], settled with [result]:
    [None] when it resolves, [Some err] when it rejects. *)
Definition await_deleteEmployee (id : Z) (result : option ApiError.t)
  : M (option ApiError.t) :=
  fun s => (result, s, [Ev_deleteEmployee id]).

Definition confirmPrompt (employee : Employee.t) : jsstring :=
  js "Are you sure you want to delete " ++ Employee.name employee ++ js "?"
  ++ [10%N; 10%N] ++ js "This action cannot be undone.".

Definition handleDeleteEmployee (answer : bool) (result : option ApiError.t)
    (employee : Employee.t) : M unit :=
  confirmed <- window_confirm (confirmPrompt employee) answer ;;
  if negb confirmed then ret tt
  else
    do_setEmployees (removeEmployee employee) ;;;
    rejected <- await_deleteEmployee (Employee.id employee) result ;;
    match rejected with
    | None => ret tt
    | Some err =>
        do_setEmployees (restoreEmployee employee) ;;;
        do_setError (Some err)
    end.

End App.
Import App.

(* ================================================================== *)
(** * src/components/EmployeeForm.tsx *)
(* ================================================================== *)

Module EmployeeForm.

(** Lines 52-59: the form data an edited employee starts from. *)
Definition formDataOf (employee : Employee.t) : EmployeeFormData.t :=
  EmployeeFormData.mk (Employee.name employee) (Employee.email employee)
    (Employee.phone employee) (Company.name (Employee.company employee)).

(** The [EmployeeFormData] object as [validateEmployeeForm] reads it. *)
Definition asObject (formData : EmployeeFormData.t) : object jsstring :=
  [ ("name"%string, EmployeeFormData.name formData);
    ("email"%string, EmployeeFormData.email formData);
    ("phone"%string, EmployeeFormData.phone formData);
    ("department"%string, EmployeeFormData.department formData) ].

End EmployeeForm.
Import EmployeeForm.

(* ================================================================== *)
(** * src/utils/validation.ts: the generic required-field rule *)
(* ================================================================== *)

Module Required.

(** Lines 14-22.  [value?.trim() || ''] is the trimmed text. *)
Definition validateRequired (value fieldName : jsstring) : ValidationResult :=
  let trimmedValue := trim value in
  let isValid := (0 <? List.length trimmedValue)%nat in
  mkResult isValid (if isValid then js "" else fieldName ++ js " is required").

End Required.
Import Required.

(* ================================================================== *)
(** * src/services/api.ts: the retry loop and the fetch of the collection *)
(* ================================================================== *)

Module Service.

(** What one [fetch] of the loop of [request] comes to: the parsed body,
    or the error the [catch] holds, with its message and the [status]
    property it may carry (an [Error] made by the loop has none). *)
Inductive fetched (T : Type) : Type :=
| Answered : T -> fetched T
| Failed : jsstring -> option Z -> fetched T.
Arguments Answered {T} _.
Arguments Failed {T} _ _.

(** What the loop does to the outside, in order. *)
Inductive io : Type :=
| Io_fetch (attempt : nat)
| Io_delay (ms : nat).

Definition retryAttempts : nat := 3.
Definition retryDelay : nat := 1000.

(** Lines 44-47: the error [request] throws after the last attempt. *)
Definition thrown (message : jsstring) (status : option Z) : ApiError.t :=
  ApiError.mk
    (if truthy message then message else js "Network error occurred")
    (Some (match status with Some n => n | None => 500%Z end)).

(** Lines 18-47.  [fetch n] is what attempt [n] comes to; [more] counts the
    attempts the [for] loop has left after this one. *)
Fixpoint attempts {T : Type} (more attempt : nat) (fetch : nat -> fetched T)
  : (T + ApiError.t) * list io :=
  match fetch attempt with
  | Answered body => (inl body, [Io_fetch attempt])
  | Failed message status =>
      let wait :=
        if (attempt <? retryAttempts)%nat
        then [Io_delay (retryDelay * attempt)] else [] in
      match more with
      | O => (inr (thrown message status), Io_fetch attempt :: wait)
      | S more' =>
          let '(result, log) := attempts more' (S attempt) fetch in
          (result, Io_fetch attempt :: wait ++ log)
      end
  end.

Definition request {T : Type} (fetch : nat -> fetched T)
  : (T + ApiError.t) * list io :=
  attempts (retryAttempts - 1) 1 fetch.

(** Lines 65-71: an empty company name becomes 'General'. *)
Definition normalise (employee : Employee.t) : Employee.t :=
  Employee.mk (Employee.id employee) (Employee.name employee)
    (Employee.username employee) (Employee.email employee)
    (Employee.phone employee) (Employee.website employee)
    (Employee.address employee)
    (Company.mk
       (if truthy (Company.name (Employee.company employee))
        then Company.name (Employee.company employee) else js "General")
       (Company.catchPhrase (Employee.company employee))
       (Company.bs (Employee.company employee))).

(** Lines 61-72, on the body the request gave. *)
Definition getEmployees (employees : list Employee.t) : list Employee.t :=
  map normalise employees.

End Service.
Import Service.

(* ================================================================== *)
(** * src/App.tsx: the other handlers and derived values *)
(* ================================================================== *)

Module View.

(** [Array.from(new Set(xs))]: the first occurrences, in order.  [seen]
    holds what the set has so far. *)
Fixpoint distinct (seen xs : list jsstring) : list jsstring :=
  match xs with
  | [] => []
  | x :: xs' =>
      if existsb (str_eqb x) seen then distinct seen xs'
      else x :: distinct (x :: seen) xs'
  end.

(** The comparison of [sort()] without a comparator, on strings. *)
Definition defaultCompare (x y : jsstring) : Z :=
  if str_ltb x y then (-1)%Z else if str_ltb y x then 1%Z else 0%Z.

(** Lines 92-95. *)
Definition availableDepartments (employees : list Employee.t) : list jsstring :=
  let departments :=
    map (fun emp => Company.name (Employee.company emp)) employees in
  sort defaultCompare (distinct [] departments).

(** Line 48. *)
Definition pageSizeOptions : list Z := [10; 25; 50; 100]%Z.

Definition setSearchTerm (t : jsstring) (s : State) :=
  mkState (employees s) (loading s) (error s) (retrying s) (showForm s)
    (editingEmployee s) (formLoading s) t (departmentFilter s)
    (sortConfig s) (currentPage s) (pageSize s).

Definition setDepartmentFilter (d : jsstring) (s : State) :=
  mkState (employees s) (loading s) (error s) (retrying s) (showForm s)
    (editingEmployee s) (formLoading s) (searchTerm s) d
    (sortConfig s) (currentPage s) (pageSize s).

(** Line 422, then the effect of lines 238-240, which runs when the term
    is another string than before. *)
Definition searchChange (t : jsstring) (s : State) : State :=
  if str_eqb t (searchTerm s) then s
  else setCurrentPage 1 (setSearchTerm t s).

(** Line 433, then the same effect. *)
Definition departmentChange (d : jsstring) (s : State) : State :=
  if str_eqb d (departmentFilter s) then s
  else setCurrentPage 1 (setDepartmentFilter d s).

(** Lines 357-362. *)
Definition handleClearFilters (s : State) : State :=
  setCurrentPage 1
    (setSortConfig (fun _ => None)
       (setDepartmentFilter (js "") (setSearchTerm (js "") s))).

(** Lines 245-248. *)
Definition handleAddEmployee (s : State) : State :=
  setShowForm true (setEditingEmployee None s).

(** Lines 253-256. *)
Definition handleEditEmployee (employee : Employee.t) (s : State) : State :=
  setShowForm true (setEditingEmployee (Some employee) s).

(** Lines 342-345. *)
Definition handleFormCancel (s : State) : State :=
  setEditingEmployee None (setShowForm false s).

(** What the user does to the view: the controls of the page. *)
Inductive action : Type :=
| A_search (term : jsstring)
| A_department (department : jsstring)
| A_sort (key : SortKey)
| A_page (page : Z)
| A_pageSize (size : Z)
| A_clear.

Section Act.
Variable toLowerCase : jsstring -> jsstring.

Definition act (a : action) (s : State) : State :=
  match a with
  | A_search t => searchChange t s
  | A_department d => departmentChange d s
  | A_sort k => sortClick k s
  | A_page p => handlePageChange toLowerCase p s
  | A_pageSize n => handlePageSizeChange n s
  | A_clear => handleClearFilters s
  end.

Fixpoint acts (l : list action) (s : State) : State :=
  match l with
  | [] => s
  | a :: l' => acts l' (act a s)
  end.

End Act.

(** The page sizes the select offers. *)
Definition offered (a : action) : Prop :=
  match a with
  | A_pageSize n => In n pageSizeOptions
  | _ => True
  end.

End View.
Import View.

(* ================================================================== *)
(** * src/components/EmployeeForm.tsx: the state of the form *)
(* ================================================================== *)

Module Form.

(** [keyof EmployeeFormData]. *)
Inductive Field : Type := F_name | F_email | F_phone | F_department.

Definition fieldKey (f : Field) : string :=
  match f with
  | F_name => "name"
  | F_email => "email"
  | F_phone => "phone"
  | F_department => "department"
  end.

Definition fields : list Field := [F_name; F_email; F_phone; F_department].

Definition fieldOf (f : Field) (d : EmployeeFormData.t) : jsstring :=
  match f with
  | F_name => EmployeeFormData.name d
  | F_email => EmployeeFormData.email d
  | F_phone => EmployeeFormData.phone d
  | F_department => EmployeeFormData.department d
  end.

(** [{ ...prev, [field]: value }]. *)
Definition withField (f : Field) (value : jsstring) (d : EmployeeFormData.t)
  : EmployeeFormData.t :=
  match f with
  | F_name =>
      EmployeeFormData.mk value (EmployeeFormData.email d)
        (EmployeeFormData.phone d) (EmployeeFormData.department d)
  | F_email =>
      EmployeeFormData.mk (EmployeeFormData.name d) value
        (EmployeeFormData.phone d) (EmployeeFormData.department d)
  | F_phone =>
      EmployeeFormData.mk (EmployeeFormData.name d) (EmployeeFormData.email d)
        value (EmployeeFormData.department d)
  | F_department =>
      EmployeeFormData.mk (EmployeeFormData.name d) (EmployeeFormData.email d)
        (EmployeeFormData.phone d) value
  end.

(** The validator [validateEmployeeForm] runs on a field. *)
Definition validatorOf (f : Field) : jsstring -> ValidationResult :=
  match f with
  | F_name => validateName
  | F_email => validateEmail
  | F_phone => validatePhone
  | F_department => validateDepartment
  end.

(** Lines 24-33. *)
Record FormState : Type := mkForm {
  formData : EmployeeFormData.t;
  errors : object ValidationResult;
  touched : object bool;
  submitAttempted : bool
}.

(** The form when it opens: empty for a new employee, filled by the effect
    of lines 51-60 for an edited one. *)
Definition opened (employee : option Employee.t) : FormState :=
  mkForm
    (match employee with
     | Some e => formDataOf e
     | None => EmployeeFormData.mk (js "") (js "") (js "") (js "")
     end)
    [] [] false.

(** [touched[field]] as a condition. *)
Definition isTouched (f : Field) (st : FormState) : bool :=
  match get (touched st) (fieldKey f) with
  | Some b => b
  | None => false
  end.

(** The effect of lines 65-70, which runs after every change of the form
    data, of [touched] or of [submitAttempted]. *)
Definition revalidate (st : FormState) : FormState :=
  if submitAttempted st || (0 <? List.length (touched st))%nat then
    mkForm (formData st) (validateEmployeeForm (asObject (formData st)))
      (touched st) (submitAttempted st)
  else st.

(** Lines 75-82, then the effect. *)
Definition handleInputChange (f : Field) (value : jsstring) (st : FormState)
  : FormState :=
  let data := withField f value (formData st) in
  let touched' :=
    if truthy (trim value) || isTouched f st
    then set (touched st) (fieldKey f) true else touched st in
  revalidate (mkForm data (errors st) touched' (submitAttempted st)).

(** Lines 87-89, then the effect. *)
Definition handleInputBlur (f : Field) (st : FormState) : FormState :=
  revalidate
    (mkForm (formData st) (errors st) (set (touched st) (fieldKey f) true)
       (submitAttempted st)).

(** Lines 94-117.  The second component is the form data [onSave] is
    called with, if it is called. *)
Definition handleSubmit (st : FormState)
  : FormState * option EmployeeFormData.t :=
  let allTouched := map (fun f => (fieldKey f, true)) fields in
  let newErrors := validateEmployeeForm (asObject (formData st)) in
  (mkForm (formData st) newErrors allTouched true,
   if isFormValid newErrors then Some (formData st) else None).

(** Line 130. *)
Definition isSubmitDisabled (isLoading : bool) (st : FormState) : bool :=
  isLoading || (submitAttempted st && negb (isFormValid (errors st))).

(** [!errors[field]?.isValid]: a missing entry counts as not valid. *)
Definition notValid (f : Field) (st : FormState) : bool :=
  match get (errors st) (fieldKey f) with
  | Some r => negb (isValid r)
  | None => true
  end.

(** Lines 135-139. *)
Definition getFieldError (f : Field) (st : FormState) : jsstring :=
  if (isTouched f st || submitAttempted st) && notValid f st then
    match get (errors st) (fieldKey f) with
    | Some r => message r
    | None => js ""
    end
  else js "".

(** Lines 144-146. *)
Definition hasFieldError (f : Field) (st : FormState) : bool :=
  (isTouched f st || submitAttempted st) && notValid f st.

(** Lines 151-153. *)
Definition isFieldValid (f : Field) (st : FormState) : bool :=
  (isTouched f st || submitAttempted st) && negb (notValid f st).

(** What the user does to the form. *)
Inductive input : Type :=
| Change (f : Field) (value : jsstring)
| Blur (f : Field)
| Submit.

Definition step (i : input) (st : FormState) : FormState :=
  match i with
  | Change f value => handleInputChange f value st
  | Blur f => handleInputBlur f st
  | Submit => fst (handleSubmit st)
  end.

Fixpoint steps (l : list input) (st : FormState) : FormState :=
  match l with
  | [] => st
  | i :: l' => steps l' (step i st)
  end.

End Form.
Import Form.

(* ================================================================== *)
(** * Vocabulary of the properties *)
(* ================================================================== *)

Module Props.

(** [l1] is [l2] with some elements left out, the others in their order. *)
Inductive subseq {A : Type} : list A -> list A -> Prop :=
| subseq_nil : subseq [] []
| subseq_skip x l1 l2 : subseq l1 l2 -> subseq l1 (x :: l2)
| subseq_keep x l1 l2 : subseq l1 l2 -> subseq (x :: l1) (x :: l2).

(** [t] occurs in [s]. *)
Definition contains (s t : jsstring) : Prop := exists a b, s = a ++ t ++ b.

(** A label: 1 to 63 letters, digits and hyphens, the first and the last
    of them no hyphen. *)
Definition is_label (l : jsstring) : Prop :=
  (1 <= List.length l <= 63)%nat
  /\ forallb alnum_hyphen l = true
  /\ is_alnum (hd 0%N l) = true
  /\ is_alnum (last l 0%N) = true.

Section Filter.
Variable toLowerCase : jsstring -> jsstring.

(** The term as the filter uses it: lower-cased, then trimmed. *)
Definition normalised (term : jsstring) : jsstring := trim (toLowerCase term).

(** A record passes the search when the term occurs, case set aside, in
    its name, e-mail, phone, category or handle. *)
Definition passesTerm (term : jsstring) (e : Employee.t) : Prop :=
  contains (toLowerCase (Employee.name e)) (normalised term)
  \/ contains (toLowerCase (Employee.email e)) (normalised term)
  \/ contains (toLowerCase (Employee.phone e)) (normalised term)
  \/ contains (toLowerCase (Company.name (Employee.company e))) (normalised term)
  \/ contains (toLowerCase (Employee.username e)) (normalised term).

(** Both conditions, each one binding only when it is set. *)
Definition passes (term category : jsstring) (e : Employee.t) : Prop :=
  (normalised term <> [] -> passesTerm term e)
  /\ (category <> [] -> Company.name (Employee.company e) = category).

(** The same, as a test. *)
Definition passesb (term category : jsstring) (e : Employee.t) : bool :=
  (negb (truthy (normalised term)) || matchesTerm toLowerCase (normalised term) e)
  && (negb (truthy category)
      || str_eqb (Company.name (Employee.company e)) category).

End Filter.

(** Page [p] of [l] at size [s], for [p] counted from 1 in [nat]. *)
Definition page (l : list Employee.t) (s : Z) (p : nat) : list Employee.t :=
  paginatedEmployees l (Z.of_nat p) s.

(** The pages 1 .. [totalPages], one after the other. *)
Definition allPages (l : list Employee.t) (s : Z) : list Employee.t :=
  flat_map (page l s) (seq 1 (Z.to_nat (totalPages l s))).

(** The answer to an update carries the four fields of the draft: name,
    email and phone as keys of their own, the department as the name of the
    company. *)
Definition carries (d : EmployeeFormData.t) (answer : Body.t) : Prop :=
  Body.name answer = Some (EmployeeFormData.name d)
  /\ Body.email answer = Some (EmployeeFormData.email d)
  /\ Body.phone answer = Some (EmployeeFormData.phone d)
  /\ option_map Company.name (Body.company answer)
     = Some (EmployeeFormData.department d).


Definition ids (l : list Employee.t) : list Z := map Employee.id l.

End Props.
Import Props.

(* ================================================================== *)
(** * The record collection under the handlers *)
(* ================================================================== *)

Module Collection.

(** What the handlers do to the [employees] cell.  [Create] carries the
    collection of the render its handler was created in, from which the new
    identifier is computed.  [Delete] is the optimistic removal of line 322
    and [Rollback] the compensation of line 332: the call to the service is
    awaited between the two, so other handlers may run in between. *)
Inductive op : Type :=
| Create (employees : list Employee.t) (newEmployee : Employee.t)
| Update (editing : Employee.t) (updatedEmployee : Body.t)
| Delete (employee : Employee.t)
| Rollback (employee : Employee.t).

Definition run_op (o : op) (l : list Employee.t) : list Employee.t :=
  match o with
  | Create employees newEmployee => addCreated employees newEmployee l
  | Update editing updatedEmployee => applyUpdate editing updatedEmployee l
  | Delete employee => removeEmployee employee l
  | Rollback employee => restoreEmployee employee l
  end.

Fixpoint run (ops : list op) (l : list Employee.t) : list Employee.t :=
  match ops with
  | [] => l
  | o :: ops' => run ops' (run_op o l)
  end.

(** A create comes from a render of the current collection, whose
    identifiers are safe integers; the answer to an update carries the
    identifier of the edited record or none; a rollback finds the
    identifier of its record unused. *)
Definition admissible (l : list Employee.t) (o : op) : Prop :=
  match o with
  | Create employees _ =>
      employees = l /\ (Math_max (ids l) 0 <= MAX_SAFE_INTEGER)%Z
  | Update editing updatedEmployee =>
      Body.id updatedEmployee = None
      \/ Body.id updatedEmployee = Some (Employee.id editing)
  | Delete _ => True
  | Rollback employee => ~ In (Employee.id employee) (ids l)
  end.

Fixpoint admissible_run (l : list Employee.t) (ops : list op) : Prop :=
  match ops with
  | [] => True
  | o :: ops' => admissible l o /\ admissible_run (run_op o l) ops'
  end.

End Collection.
Import Collection.

(* ================================================================== *)
(** * The phone allow-list in the words of the specification *)
(* ================================================================== *)

Module PhoneSpec.

(** Digits, spaces, parentheses, hyphens and dots. *)
Definition plain (c : N) : bool :=
  is_digit c || is_space c || one_of (js "()-.") c.

(** Only such characters, after at most one plus sign in the leading
    position. *)
Definition leadingPlusOnly (s : jsstring) : bool :=
  match s with
  | [] => true
  | c :: s' => if (c =? 43)%N then forallb plain s' else forallb plain s
  end.

End PhoneSpec.
Import PhoneSpec.

(* ================================================================== *)
(** * Sample data: the records of the test suite *)
(* ================================================================== *)

Module Fixtures.

Definition leanne : Employee.t :=
  Employee.mk 1 (js "Leanne Graham") (js "Bret") (js "Sincere@april.biz")
    (js "1-770-736-8031 x56442") (js "hildegard.org")
    (mkAddress (js "Kulas Light") (js "Apt. 556") (js "Gwenborough")
               (js "92998-3874") (mkGeo (js "-37.3159") (js "81.1496")))
    (Company.mk (js "Engineering") (js "Multi-layered client-server neural-net")
                (js "harness real-time e-markets")).

Definition ervin : Employee.t :=
  Employee.mk 2 (js "Ervin Howell") (js "Antonette") (js "Shanna@melissa.tv")
    (js "010-692-6593 x09125") (js "anastasia.net")
    (mkAddress (js "Victor Plains") (js "Suite 879") (js "Wisokyburgh")
               (js "90566-7771") (mkGeo (js "-43.9509") (js "-34.4618")))
    (Company.mk (js "Marketing") (js "Proactive didactic contingency")
                (js "synergize scalable supply-chains")).

Definition clementine : Employee.t :=
  Employee.mk 3 (js "Clementine Bauch") (js "Samantha") (js "Nathan@yesenia.net")
    (js "1-463-123-4447") (js "ramiro.info")
    (mkAddress (js "Douglas Extension") (js "Suite 847") (js "McKenziehaven")
               (js "59590-4157") (mkGeo (js "-68.6102") (js "-47.0653")))
    (Company.mk (js "Sales") (js "Face to face bifurcated interface")
                (js "e-enable strategic applications")).

Definition mockEmployees : list Employee.t := [leanne; ervin; clementine].

Definition johnDoe : EmployeeFormData.t :=
  EmployeeFormData.mk (js "John Doe") (js "john@example.com")
    (js "1-555-123-4567") (js "Engineering").

Definition networkError : ApiError.t :=
  ApiError.mk (js "Failed to fetch") (Some 500%Z).

(** The component state once [mockEmployees] is loaded. *)
Definition loaded : State :=
  mkState mockEmployees false None false false None false
    (js "") (js "") None 1 10.


(** The record the create path builds for [johnDoe]. *)
Definition created : Employee.t :=
  createEmployee asciiLowerCase johnDoe (complete leanne) 0.

(** A delete of [leanne], the only record, whose call fails after a create
    went through. *)
Definition interleaved : list op :=
  [Delete leanne; Create [] created; Rollback leanne].

(** A delete of [clementine] whose call fails while a create, issued from
    the render without that record, is still awaited. *)
Definition staleCreate : list op :=
  [Delete clementine; Rollback clementine; Create [leanne; ervin] created].

(** An update of [leanne] answered with a record of identifier 2. *)
Definition strayUpdate : list op :=
  [Update leanne (complete (updatedEmployee asciiLowerCase 2 johnDoe))].

(** A record whose identifier is the first number whose successor is not a
    number, and a create issued from the render of the current collection. *)
Definition distant : Employee.t := withId leanne (2 ^ 53).

Definition distantCreate : list op := [Create [distant] created].

(** The collection after the edit of [leanne] with the draft [johnDoe] is
    saved and answered with [answer]. *)
Definition savedAs (answer : Body.t) : list Employee.t :=
  let editing := handleEditEmployee leanne loaded in
  employees (fst (handleFormSave asciiLowerCase editing johnDoe 0
                    (Resolved answer) editing)).


End Fixtures.
Import Fixtures.

(* ================================================================== *)
(** * Vocabulary of the properties of the sort stage *)
(* ================================================================== *)

Module SortProps.

Section Keys.
Variable toLowerCase : jsstring -> jsstring.

(** The text a record sorts on under a column that is not the identifier. *)
Definition textKey (k : SortKey) (e : Employee.t) : jsstring :=
  toLowerCase (columnText k e).

(** [a] may stand before [b] under [cfg]: by number on the identifier, by
    code units on the lower-cased text of another column. *)
Definition inOrder (cfg : SortConfig) (a b : Employee.t) : Prop :=
  match key cfg, direction cfg with
  | K_id, asc => (Employee.id a <= Employee.id b)%Z
  | K_id, desc => (Employee.id b <= Employee.id a)%Z
  | k, asc => str_ltb (textKey k b) (textKey k a) = false
  | k, desc => str_ltb (textKey k a) (textKey k b) = false
  end.

(** [a] and [b] have the same sort key under [cfg]. *)
Definition tied (cfg : SortConfig) (a b : Employee.t) : bool :=
  match key cfg with
  | K_id => (Employee.id a =? Employee.id b)%Z
  | k => str_eqb (textKey k a) (textKey k b)
  end.

End Keys.

(** [a] is before [b] in the order of code units. *)
Definition strLt (a b : jsstring) : Prop := str_ltb a b = true.

Definition idLt (a b : Employee.t) : Prop :=
  (Employee.id a < Employee.id b)%Z.

End SortProps.
Import SortProps.

(* ================================================================== *)
(** * Vocabulary of the properties of the view *)
(* ================================================================== *)

Module ViewProps.

Section OnPage.
Variable toLowerCase : jsstring -> jsstring.

(** The page size is positive, and the current page is page 1 or a page
    within the page count. *)
Definition onPage (s : State) : Prop :=
  (0 < pageSize s)%Z
  /\ (currentPage s = 1%Z
      \/ (1 <= currentPage s <= totalPagesOf toLowerCase s)%Z).

End OnPage.

(** The department of a record. *)
Definition departmentOf (e : Employee.t) : jsstring :=
  Company.name (Employee.company e).

End ViewProps.
Import ViewProps.

(* ================================================================== *)
(** * Vocabulary of the properties of the service *)
(* ================================================================== *)

Module ServiceProps.

(** What the retry loop does when every attempt fails. *)
Definition schedule : list io :=
  [Io_fetch 1; Io_delay 1000; Io_fetch 2; Io_delay 2000; Io_fetch 3].

(** The attempt failed. *)
Definition failed {T : Type} (r : fetched T) : Prop :=
  match r with
  | Answered _ => False
  | Failed _ _ => True
  end.

(** No white space in the text. *)
Definition spaceless (s : jsstring) : Prop :=
  forallb (fun c => negb (is_space c)) s = true.

End ServiceProps.
Import ServiceProps.

(* ================================================================== *)
(** * Strings: basic facts *)
(* ================================================================== *)

Lemma str_eqb_eq (a b : jsstring) : str_eqb a b = true <-> a = b.
Proof.
  revert b; induction a as [|x a IH]; intros [|y b]; simpl; split;
    try congruence; try reflexivity.
  - intros H. apply andb_true_iff in H as [Hx Hab].
    apply N.eqb_eq in Hx. apply IH in Hab. congruence.
  - intros H. inversion H; subst. apply andb_true_iff; split.
    + apply N.eqb_refl.
    + now apply IH.
Qed.

Lemma str_eqb_refl (a : jsstring) : str_eqb a a = true.
Proof. now apply str_eqb_eq. Qed.

Lemma startsWith_nil (s : jsstring) : startsWith s [] = true.
Proof. destruct s; reflexivity. Qed.

Lemma includes_nil (s : jsstring) : includes s [] = true.
Proof. destruct s; simpl; reflexivity. Qed.

Lemma startsWith_app (s t : jsstring) :
  startsWith s t = true <-> exists b, s = t ++ b.
Proof.
  revert s; induction t as [|c t IH]; intros s.
  - rewrite startsWith_nil. split; [intros _; now exists s | reflexivity].
  - destruct s as [|d s]; simpl.
    + split; [discriminate | intros [b Hb]; discriminate].
    + rewrite andb_true_iff, N.eqb_eq, IH. split.
      * intros [-> [b ->]]. now exists b.
      * intros [b Hb]. inversion Hb; subst. split; eauto.
Qed.

(** [includes] is the substring test. *)
Lemma includes_app (s t : jsstring) :
  includes s t = true <-> exists a b, s = a ++ t ++ b.
Proof.
  induction s as [|d s IH].
  - cbn [includes]. rewrite orb_false_r, startsWith_app. split.
    + intros [b Hb]. now exists [], b.
    + intros [a [b Hab]]. destruct a; [now exists b | discriminate].
  - cbn [includes]. rewrite orb_true_iff, startsWith_app, IH. split.
    + intros [[b Hb] | [a [b Hab]]].
      * now exists [], b.
      * exists (d :: a), b. now rewrite Hab.
    + intros [[|x a] [b Hab]].
      * left. now exists b.
      * right. inversion Hab; subst. now exists a, b.
Qed.

Lemma trimStart_nil_iff (s : jsstring) :
  trimStart s = [] <-> forallb is_space s = true.
Proof.
  induction s as [|c s IH]; simpl.
  - tauto.
  - destruct (is_space c); simpl; [exact IH | split; discriminate].
Qed.

(** What [trimStart] strips is a prefix of white space. *)
Lemma trimStart_split (s : jsstring) :
  exists p, s = p ++ trimStart s /\ forallb is_space p = true.
Proof.
  induction s as [|c s [p [Hs Hp]]]; simpl.
  - now exists [].
  - destruct (is_space c) eqn:Hc.
    + exists (c :: p). simpl. rewrite Hc, Hp. split; [congruence | reflexivity].
    + now exists [].
Qed.

Lemma trim_split (s : jsstring) :
  exists p q, s = p ++ trim s ++ q
              /\ forallb is_space p = true /\ forallb is_space q = true.
Proof.
  destruct (trimStart_split s) as [p [Hs Hp]].
  destruct (trimStart_split (rev (trimStart s))) as [q [Hr Hq]].
  exists p, (rev q). repeat split.
  - unfold trim, trimEnd. rewrite <- rev_app_distr, <- Hr, rev_involutive.
    exact Hs.
  - exact Hp.
  - rewrite forallb_forall in *. intros x Hx. apply Hq. now apply in_rev.
Qed.

(* ================================================================== *)
(** * Regular expressions: the matcher decides the language *)
(* ================================================================== *)

Section RegexFacts.

Lemma lang_Void (s : jsstring) : ~ lang Void s.
Proof. intros H; inversion H. Qed.

Lemma lang_Eps_inv (s : jsstring) : lang Eps s -> s = [].
Proof. intros H; inversion H; reflexivity. Qed.

Lemma lang_Class_inv (p : N -> bool) (s : jsstring) :
  lang (Class p) s -> exists c, s = [c] /\ p c = true.
Proof. intros H; inversion H; subst; eauto. Qed.

Lemma lang_Cat_inv (r1 r2 : regex) (s : jsstring) :
  lang (Cat r1 r2) s ->
  exists s1 s2, s = s1 ++ s2 /\ lang r1 s1 /\ lang r2 s2.
Proof. intros H; inversion H; subst; eauto. Qed.

Lemma lang_Alt_inv (r1 r2 : regex) (s : jsstring) :
  lang (Alt r1 r2) s -> lang r1 s \/ lang r2 s.
Proof. intros H; inversion H; subst; auto. Qed.

Lemma lang_cat' (a b : regex) (s : jsstring) :
  lang (cat' a b) s <-> lang (Cat a b) s.
Proof.
  split.
  - destruct a, b; simpl; intros H; try exact H;
      try (now apply lang_Void in H);
      try (change s with ([] ++ s); apply L_cat; [apply L_eps | exact H]).
  - intros H. apply lang_Cat_inv in H as [s1 [s2 [-> [H1 H2]]]].
    destruct a; try (now apply lang_Void in H1);
      destruct b; try (now apply lang_Void in H2); simpl;
      try (now apply L_cat);
      apply lang_Eps_inv in H1; subst; exact H2.
Qed.

Lemma lang_alt' (a b : regex) (s : jsstring) :
  lang (alt' a b) s <-> lang (Alt a b) s.
Proof.
  split.
  - destruct a, b; simpl; intros H; try exact H;
      try (now apply L_alt_l); try (now apply L_alt_r).
  - intros H. apply lang_Alt_inv in H as [H1|H2].
    + destruct a; try (now apply lang_Void in H1);
        destruct b; simpl; try exact H1; now apply L_alt_l.
    + destruct b; try (now apply lang_Void in H2);
        destruct a; simpl; try exact H2; now apply L_alt_r.
Qed.

Lemma nullable_spec (r : regex) : nullable r = true <-> lang r [].
Proof.
  induction r as [| |p|r1 IH1 r2 IH2|r1 IH1 r2 IH2|r IH]; simpl.
  - split; [discriminate | intros H; inversion H].
  - split; [intros _; apply L_eps | reflexivity].
  - split; [discriminate | intros H; inversion H].
  - rewrite andb_true_iff, IH1, IH2. split.
    + intros [H1 H2]. change (@nil N) with (@nil N ++ []). now apply L_cat.
    + intros H. apply lang_Cat_inv in H as [s1 [s2 [E [H1 H2]]]].
      symmetry in E. apply app_eq_nil in E as [-> ->]. now split.
  - rewrite orb_true_iff, IH1, IH2. split.
    + intros [H|H]; [now apply L_alt_l | now apply L_alt_r].
    + apply lang_Alt_inv.
  - split; [intros _; apply L_star_nil | reflexivity].
Qed.

Lemma star_cons_inv (r : regex) (c : N) (s : jsstring) :
  lang (Star r) (c :: s) ->
  exists s1 s2, s = s1 ++ s2 /\ lang r (c :: s1) /\ lang (Star r) s2.
Proof.
  intros H. remember (Star r) as q eqn:Eq. remember (c :: s) as w eqn:Ew.
  revert s Ew.
  induction H as [| | | | | |r0 s1 s2 H1 _ H2 IH2]; intros t Ew; try discriminate.
  inversion Eq; subst r0. destruct s1 as [|d s1]; simpl in Ew.
  - now apply IH2.
  - inversion Ew; subst. now exists s1, s2.
Qed.

Lemma deriv_spec (c : N) (r : regex) :
  forall s, lang (deriv c r) s <-> lang r (c :: s).
Proof.
  induction r as [| |p|r1 IH1 r2 IH2|r1 IH1 r2 IH2|r IH]; intros s; simpl.
  - split; intros H; inversion H.
  - split; intros H; inversion H.
  - destruct (p c) eqn:Hp; split; intros H.
    + apply lang_Eps_inv in H; subst. now apply L_class.
    + apply lang_Class_inv in H as [d [E Hd]]. inversion E; subst. apply L_eps.
    + now apply lang_Void in H.
    + apply lang_Class_inv in H as [d [E Hd]]. inversion E; subst. congruence.
  - rewrite lang_alt'. split.
    + intros H. apply lang_Alt_inv in H as [H1|H2].
      * apply lang_cat', lang_Cat_inv in H1 as [s1 [s2 [-> [Ha Hb]]]].
        apply IH1 in Ha. change (c :: s1 ++ s2) with ((c :: s1) ++ s2).
        now apply L_cat.
      * destruct (nullable r1) eqn:Hn; [|now apply lang_Void in H2].
        apply nullable_spec in Hn. apply IH2 in H2.
        change (c :: s) with ([] ++ c :: s). now apply L_cat.
    + intros H. apply lang_Cat_inv in H as [s1 [s2 [E [Ha Hb]]]].
      destruct s1 as [|d s1]; simpl in E.
      * subst s2. apply L_alt_r. apply nullable_spec in Ha. rewrite Ha.
        now apply IH2.
      * inversion E; subst. apply L_alt_l, lang_cat'. apply L_cat; [|exact Hb].
        now apply IH1.
  - rewrite lang_alt'. split; intros H; apply lang_Alt_inv in H as [H|H];
      solve [apply L_alt_l; now apply IH1 | apply L_alt_r; now apply IH2].
  - rewrite lang_cat'. split.
    + intros H. apply lang_Cat_inv in H as [s1 [s2 [-> [Ha Hb]]]].
      apply IH in Ha. change (c :: s1 ++ s2) with ((c :: s1) ++ s2).
      now apply L_star_app.
    + intros H. apply star_cons_inv in H as [s1 [s2 [-> [Ha Hb]]]].
      apply L_cat; [now apply IH | exact Hb].
Qed.

(** The matcher accepts exactly the language of the pattern. *)
Theorem test_spec (r : regex) (s : jsstring) : test r s = true <-> lang r s.
Proof.
  revert r; induction s as [|c s IH]; intros r; simpl.
  - apply nullable_spec.
  - rewrite IH. apply deriv_spec.
Qed.

Lemma lang_star_class (p : N -> bool) (s : jsstring) :
  lang (Star (Class p)) s <-> forallb p s = true.
Proof.
  split.
  - intros H. remember (Star (Class p)) as q eqn:Eq.
    induction H as [| | | | | |r0 s1 s2 H1 _ H2 IH2]; try discriminate.
    + reflexivity.
    + inversion Eq; subst r0.
      apply lang_Class_inv in H1 as [c [-> Hc]]. simpl.
      apply andb_true_iff. split; [assumption | now apply IH2].
  - induction s as [|c s IH]; simpl; intros H.
    + apply L_star_nil.
    + apply andb_true_iff in H as [Hc Hs].
      change (c :: s) with ([c] ++ s).
      apply L_star_app; [now apply L_class | now apply IH].
Qed.

(** [[class]+] matches the non-empty strings of the class. *)
Lemma lang_plus_class (p : N -> bool) (s : jsstring) :
  lang (Plus (Class p)) s <-> s <> [] /\ forallb p s = true.
Proof.
  unfold Plus. split.
  - intros H. apply lang_Cat_inv in H as [s1 [s2 [-> [Ha Hb]]]].
    apply lang_Class_inv in Ha as [c [-> Hc]].
    apply lang_star_class in Hb. simpl. split.
    + discriminate.
    + now apply andb_true_iff.
  - intros [Hne H]. destruct s as [|c s]; [congruence|].
    simpl in H. apply andb_true_iff in H as [Hc Hs].
    change (c :: s) with ([c] ++ s).
    apply L_cat; [now apply L_class | now apply lang_star_class].
Qed.

End RegexFacts.

(* ================================================================== *)
(** * The sort toggle *)
(* ================================================================== *)

Lemma SortKey_eqb_eq (a b : SortKey) : SortKey_eqb a b = true <-> a = b.
Proof. destruct a, b; simpl; split; congruence. Qed.

Lemma SortKey_eqb_refl (k : SortKey) : SortKey_eqb k k = true.
Proof. now apply SortKey_eqb_eq. Qed.

Lemma handleSort_other (k : SortKey) (c : SortConfig) :
  key c <> k -> handleSort k (Some c) = Some (mkSort k asc).
Proof.
  intros Hk. unfold handleSort.
  destruct (SortKey_eqb (key c) k) eqn:E; [|reflexivity].
  apply SortKey_eqb_eq in E. contradiction.
Qed.

Lemma handleSort_same (k : SortKey) (d : Direction) :
  handleSort k (Some (mkSort k d)) =
  match d with asc => Some (mkSort k desc) | desc => None end.
Proof. unfold handleSort. simpl. now rewrite SortKey_eqb_refl. Qed.

(** C1.  Toggling column [k] gives ascending-on-[k] from the absent state
    and from any state on another column, descending-on-[k] from
    ascending-on-[k], and the absent state from descending-on-[k]; three
    toggles on one column from the absent state end in the absent state; an
    absent sort leaves its input as it is, so the view computed from a
    record set, a term, a category, a page index and a page size is the same
    after no toggle and after three. *)
Theorem sort_toggle_cycle :
  forall (toLowerCase : jsstring -> jsstring) (cur : option SortConfig)
         (k : SortKey) (records : list Employee.t)
         (term category : jsstring) (page size : Z),
    handleSort k None = Some (mkSort k asc)
    /\ handleSort k (Some (mkSort k asc)) = Some (mkSort k desc)
    /\ handleSort k (Some (mkSort k desc)) = None
    /\ (((cur = None \/ exists c, cur = Some c /\ key c <> k)
      /\ handleSort k cur = Some (mkSort k asc))
     \/ (cur = Some (mkSort k asc)
         /\ handleSort k cur = Some (mkSort k desc))
     \/ (cur = Some (mkSort k desc) /\ handleSort k cur = None))
    /\ handleSort k (handleSort k (handleSort k None)) = None
    /\ sortedEmployees toLowerCase records None = records
    /\ (let filtered := filteredEmployees toLowerCase records term category in
        let view cfg :=
          paginatedEmployees (sortedEmployees toLowerCase filtered cfg)
                             page size in
        sortedEmployees toLowerCase filtered
          (handleSort k (handleSort k (handleSort k None)))
        = sortedEmployees toLowerCase filtered None
        /\ view (handleSort k (handleSort k (handleSort k None))) = view None).
Proof.
  intros toLowerCase cur k records term category page size.
  assert (H3 : handleSort k (handleSort k (handleSort k None)) = None).
  { destruct k; reflexivity. }
  split; [reflexivity|].
  split; [apply (handleSort_same k asc)|].
  split; [apply (handleSort_same k desc)|].
  repeat split.
  - destruct cur as [[k' d]|].
    + destruct (SortKey_eqb k' k) eqn:E.
      * apply SortKey_eqb_eq in E. subst k'. rewrite handleSort_same.
        destruct d; [right; left | right; right]; split; reflexivity.
      * left. split.
        -- right. exists (mkSort k' d). split; [reflexivity|].
           simpl. intros ->. now rewrite SortKey_eqb_refl in E.
        -- unfold handleSort. simpl. now rewrite E.
    + left. split; [now left | reflexivity].
  - exact H3.
  - now rewrite H3.
  - now rewrite H3.
Qed.

(** On the state cells: three clicks on one column from an unsorted state
    give back the sorted stage of that state, on page 1. *)
Lemma sortClick_three (toLowerCase : jsstring -> jsstring) (k : SortKey)
    (s : State) :
  sortConfig s = None ->
  let s3 := sortClick k (sortClick k (sortClick k s)) in
  sortConfig s3 = None
  /\ currentPage s3 = 1%Z
  /\ sortedOf toLowerCase s3 = sortedOf toLowerCase s
  /\ (currentPage s = 1%Z ->
        paginatedOf toLowerCase s3 = paginatedOf toLowerCase s).
Proof.
  intros Hs s3.
  assert (H3 : sortConfig s3 = None).
  { unfold s3, sortClick. simpl. rewrite Hs. destruct k; reflexivity. }
  assert (Hsorted : sortedOf toLowerCase s3 = sortedOf toLowerCase s).
  { unfold sortedOf. rewrite H3, Hs. reflexivity. }
  refine (conj H3 (conj eq_refl (conj Hsorted _))).
  intros Hp. unfold paginatedOf. rewrite Hsorted. unfold s3, sortClick.
  simpl. now rewrite Hp.
Qed.

(* ================================================================== *)
(** * Changing the page *)
(* ================================================================== *)

(** C6.  A requested page below 1 or above the page count leaves the whole
    state as it is; a requested page inside the range becomes the current
    page, and no other cell changes. *)
Theorem handlePageChange_range :
  forall (toLowerCase : jsstring -> jsstring) (s : State) (p : Z),
    ((p < 1 \/ totalPagesOf toLowerCase s < p)%Z ->
       handlePageChange toLowerCase p s = s)
    /\ ((1 <= p <= totalPagesOf toLowerCase s)%Z ->
          let s' := handlePageChange toLowerCase p s in
          currentPage s' = p
          /\ s' = setCurrentPage p s
          /\ employees s' = employees s
          /\ error s' = error s
          /\ searchTerm s' = searchTerm s
          /\ departmentFilter s' = departmentFilter s
          /\ sortConfig s' = sortConfig s
          /\ pageSize s' = pageSize s).
Proof.
  intros toLowerCase s p. unfold handlePageChange. split.
  - intros Hout.
    destruct ((p >=? 1) && (p <=? totalPagesOf toLowerCase s))%Z eqn:E;
      [|reflexivity].
    apply andb_true_iff in E as [E1 E2]. lia.
  - intros Hin.
    assert (E : ((p >=? 1) && (p <=? totalPagesOf toLowerCase s))%Z = true).
    { apply andb_true_iff. split; lia. }
    rewrite E. cbv zeta. repeat split.
Qed.

Lemma handlePageChange_range_witness :
  handlePageChange asciiLowerCase 5 loaded = loaded
  /\ currentPage (handlePageChange asciiLowerCase 1 loaded) = 1%Z.
Proof.
  split.
  - apply (proj1 (handlePageChange_range asciiLowerCase loaded 5)).
    right. vm_compute. reflexivity.
  - apply (proj2 (handlePageChange_range asciiLowerCase loaded 1)).
    vm_compute. split; discriminate.
Defined.

(* ================================================================== *)
(** * The form aggregator *)
(* ================================================================== *)

(** C10.  On a mapping without entries [isFormValid] answers true and
    [getFirstErrorMessage] the empty string, whereas the mapping that
    [validateEmployeeForm] builds from a draft without fields, or with four
    blank fields, has its four entries invalid and is not valid. *)
Theorem isFormValid_empty_mapping :
  isFormValid [] = true
  /\ getFirstErrorMessage [] = js ""
  /\ validateEmployeeForm [] =
       [ ("name"%string, mkResult false (js "Name is required"));
         ("email"%string, mkResult false (js "Email is required"));
         ("phone"%string, mkResult false (js "Phone number is required"));
         ("department"%string, mkResult false (js "Department is required")) ]
  /\ validateEmployeeForm
       (asObject (EmployeeFormData.mk (js "") (js "") (js "") (js "")))
     = validateEmployeeForm []
  /\ isFormValid (validateEmployeeForm []) = false
  /\ getFirstErrorMessage (validateEmployeeForm []) = js "Name is required".
Proof. repeat split; vm_compute; reflexivity. Qed.

(** C9, as the code has it.  A draft that [validateEmployeeForm] finds valid
    in every field is found valid again when it is rebuilt from the record
    built from it: the record [createEmployee] returns, whatever the server
    answered, that record under its new identifier, and the record the
    update path stores, which is the edited record under the answer of the
    server, when that answer carries the name, email, phone and department
    of the draft, as the echo of the body sent does.  The rebuilt draft is
    the draft. *)
Theorem validateEmployeeForm_round_trip :
  forall (toLowerCase : jsstring -> jsstring) (d : EmployeeFormData.t)
         (response answer : Body.t) (now i : Z) (emp : Employee.t),
    isFormValid (validateEmployeeForm (asObject d)) = true ->
    carries d answer ->
    let created := createEmployee toLowerCase d response now in
    let stored := withId created i in
    let updated := spread emp (updateEmployee (Employee.id emp) d answer) in
    let echo := complete (updatedEmployee toLowerCase (Employee.id emp) d) in
    formDataOf created = d
    /\ formDataOf stored = d
    /\ formDataOf updated = d
    /\ carries d echo
    /\ isFormValid (validateEmployeeForm (asObject (formDataOf created))) = true
    /\ isFormValid (validateEmployeeForm (asObject (formDataOf stored))) = true
    /\ isFormValid (validateEmployeeForm (asObject (formDataOf updated))) = true.
Proof.
  intros toLowerCase d response answer now i emp Hvalid Hcarries
         created stored updated echo.
  assert (Hc : formDataOf created = d) by (destruct d; reflexivity).
  assert (Hs : formDataOf stored = d) by (destruct d; reflexivity).
  assert (Hu : formDataOf updated = d).
  { destruct Hcarries as (Hn & He & Hp & Hd).
    unfold updated, updateEmployee, formDataOf, spread. cbn [Employee.name
      Employee.email Employee.phone Employee.company].
    rewrite Hn, He, Hp. destruct (Body.company answer) as [c|];
      [|discriminate Hd].
    injection Hd as Hd. cbn [pick]. rewrite Hd. destruct d; reflexivity. }
  assert (He : carries d echo) by (repeat split).
  rewrite Hc, Hs, Hu.
  exact (conj eq_refl (conj eq_refl (conj eq_refl
          (conj He (conj Hvalid (conj Hvalid Hvalid)))))).
Qed.

Lemma validateEmployeeForm_round_trip_witness :
  isFormValid (validateEmployeeForm (asObject johnDoe)) = true
  /\ carries johnDoe (complete (updatedEmployee asciiLowerCase 1 johnDoe))
  /\ isFormValid
       (validateEmployeeForm
          (asObject (formDataOf
             (spread leanne
                (updateEmployee 1 johnDoe
                   (complete (updatedEmployee asciiLowerCase 1 johnDoe)))))))
     = true.
Proof.
  assert (Hv : isFormValid (validateEmployeeForm (asObject johnDoe)) = true)
    by (vm_compute; reflexivity).
  assert (Hc : carries johnDoe
                 (complete (updatedEmployee asciiLowerCase 1 johnDoe)))
    by (repeat split).
  refine (conj Hv (conj Hc _)).
  apply (@validateEmployeeForm_round_trip asciiLowerCase johnDoe
           (complete leanne)
           (complete (updatedEmployee asciiLowerCase 1 johnDoe))
           0%Z 4%Z leanne Hv Hc).
Defined.

(** C9, as it is stated, fails on the update path.  The draft [johnDoe] is
    valid in every field; the update of [leanne] is answered with a body
    without keys, or with the record the server holds; the handler stores
    the edited record under that answer, which is [leanne] as it was, and
    the draft rebuilt from it has a phone number the validator refuses. *)
Lemma validateEmployeeForm_round_trip_counterexample :
  isFormValid (validateEmployeeForm (asObject johnDoe)) = true
  /\ savedAs noKeys = [leanne; ervin; clementine]
  /\ savedAs (complete leanne) = [leanne; ervin; clementine]
  /\ isFormValid (validateEmployeeForm (asObject (formDataOf leanne))) = false
  /\ getFirstErrorMessage (validateEmployeeForm (asObject (formDataOf leanne)))
     = js "Please enter a valid phone number".
Proof. repeat split; vm_compute; reflexivity. Qed.

(* ================================================================== *)
(** * Pagination *)
(* ================================================================== *)

Section Pagination.

Lemma firstn_clip (A : Type) (n : nat) (l : list A) :
  firstn (Nat.min n (List.length l)) l = firstn n l.
Proof.
  destruct (Nat.le_gt_cases n (List.length l)) as [H|H].
  - now rewrite Nat.min_l.
  - rewrite Nat.min_r by lia. rewrite firstn_all.
    symmetry. apply firstn_all2. lia.
Qed.

Lemma firstn_plus (A : Type) (a b : nat) (l : list A) :
  firstn (a + b) l = firstn a l ++ firstn b (skipn a l).
Proof.
  revert l; induction a as [|a IH]; intros l.
  - reflexivity.
  - destruct l as [|x l]; simpl.
    + now rewrite firstn_nil.
    + now rewrite IH.
Qed.

(** A slice whose bounds are not negative is a [firstn] of a [skipn]. *)
Lemma slice_from (A : Type) (l : list A) (a b : Z) :
  (0 <= a)%Z -> (0 <= b)%Z ->
  slice l a (a + b) = firstn (Z.to_nat b) (skipn (Z.to_nat a) l).
Proof.
  intros Ha Hb. unfold slice.
  destruct (a <? 0)%Z eqn:Ea; [lia|].
  destruct (a + b <? 0)%Z eqn:Eb; [lia|].
  set (len := Z.of_nat (List.length l)).
  destruct (Z.le_gt_cases a len) as [H|H].
  - rewrite (Z.min_l a len) by lia.
    rewrite <- (firstn_clip (Z.to_nat b)). f_equal.
    rewrite length_skipn. subst len. lia.
  - rewrite (Z.min_r a len), (Z.min_r (a + b) len) by lia.
    rewrite (skipn_all2 l (n := Z.to_nat a)) by (subst len; lia).
    rewrite firstn_nil. replace (len - len)%Z with 0%Z by lia. reflexivity.
Qed.

Lemma paginatedEmployees_slice (l : list Employee.t) (p s : Z) :
  (0 < s)%Z -> (1 <= p)%Z ->
  paginatedEmployees l p s
  = firstn (Z.to_nat s) (skipn (Z.to_nat ((p - 1) * s)) l).
Proof.
  intros Hs Hp. unfold paginatedEmployees. apply slice_from; nia.
Qed.

Lemma Math_ceil_div_bounds (n d : Z) :
  (0 < d)%Z ->
  ((Math_ceil_div n d - 1) * d < n <= Math_ceil_div n d * d)%Z.
Proof.
  intros Hd. unfold Math_ceil_div.
  pose proof (Z.div_mod (- n) d ltac:(lia)) as E.
  pose proof (Z.mod_pos_bound (- n) d Hd) as B.
  nia.
Qed.

Lemma chunks_firstn (A : Type) (n k : nat) (l : list A) :
  flat_map (fun p => firstn n (skipn ((p - 1) * n) l)) (seq 1 k)
  = firstn (k * n) l.
Proof.
  induction k as [|k IH].
  - reflexivity.
  - rewrite seq_S, flat_map_app, IH. simpl flat_map. rewrite app_nil_r.
    rewrite Nat.sub_0_r.
    replace (S k * n)%nat with (k * n + n)%nat by lia.
    symmetry. apply firstn_plus.
Qed.

Lemma allPages_all (l : list Employee.t) (s : Z) :
  (0 < s)%Z -> allPages l s = l.
Proof.
  intros Hs. unfold allPages.
  pose proof (Math_ceil_div_bounds (Z.of_nat (List.length l)) Hs) as B.
  fold (totalPages l s) in B.
  set (t := totalPages l s) in *.
  rewrite flat_map_concat_map.
  rewrite (map_ext_in _
             (fun p => firstn (Z.to_nat s) (skipn ((p - 1) * Z.to_nat s) l))).
  - rewrite <- flat_map_concat_map, chunks_firstn.
    apply firstn_all2. nia.
  - intros p Hp. apply in_seq in Hp. unfold page.
    rewrite paginatedEmployees_slice by lia.
    do 2 f_equal. nia.
Qed.

End Pagination.

(** C5.  For a page size [s > 0] and a sequence of length [n]: the page
    count is the ceiling of [n / s], that is the integer [t] with
    [(t - 1) * s < n <= t * s]; it is 0 for the empty sequence, every page of
    which is empty; page [p >= 1] is the [s] elements at most that follow the
    first [(p - 1) * s]; and the pages 1 .. [t] put end to end are the
    sequence. *)
Theorem pagination_covers :
  forall (l : list Employee.t) (s : Z),
    (0 < s)%Z ->
    let n := Z.of_nat (List.length l) in
    let t := totalPages l s in
    ((t - 1) * s < n <= t * s)%Z
    /\ t = ((n + s - 1) / s)%Z
    /\ (l = [] -> t = 0%Z /\ forall p, paginatedEmployees l p s = [])
    /\ (forall p, (1 <= p)%Z ->
          paginatedEmployees l p s
          = firstn (Z.to_nat s) (skipn (Z.to_nat ((p - 1) * s)) l)
          /\ (Z.of_nat (List.length (paginatedEmployees l p s)) <= s)%Z)
    /\ allPages l s = l.
Proof.
  intros l s Hs n t.
  assert (B : ((t - 1) * s < n <= t * s)%Z)
    by (apply Math_ceil_div_bounds; assumption).
  split; [exact B|]. split.
  { apply Z.div_unique with (r := (n + s - 1 - s * t)%Z); lia. }
  split.
  { intros ->. split.
    - assert (Hn : n = 0%Z) by reflexivity. nia.
    - intros p. unfold paginatedEmployees, slice.
      now rewrite skipn_nil, firstn_nil. }
  split.
  { intros p Hp. rewrite paginatedEmployees_slice by assumption. split.
    - reflexivity.
    - rewrite length_firstn. lia. }
  now apply allPages_all.
Qed.

Lemma pagination_covers_witness :
  (0 < 2)%Z /\ totalPages mockEmployees 2 = 2%Z
  /\ allPages mockEmployees 2 = mockEmployees.
Proof.
  split; [reflexivity|]. split; [reflexivity|].
  apply (pagination_covers mockEmployees (s := 2)). reflexivity.
Defined.

(* ================================================================== *)
(** * The filter stage *)
(* ================================================================== *)

Section FilterFacts.

Lemma filter_all (A : Type) (l : list A) : filter (fun _ => true) l = l.
Proof. induction l as [|x l IH]; simpl; congruence. Qed.

Lemma filter_twice (A : Type) (f g : A -> bool) (l : list A) :
  filter f (filter g l) = filter (fun x => g x && f x) l.
Proof.
  induction l as [|x l IH]; simpl; [reflexivity|].
  destruct (g x); simpl; [destruct (f x)|]; now rewrite IH.
Qed.

Lemma subseq_refl (A : Type) (l : list A) : subseq l l.
Proof. induction l; constructor; assumption. Qed.

Lemma filter_subseq (A : Type) (f : A -> bool) (l : list A) :
  subseq (filter f l) l.
Proof.
  induction l as [|x l IH]; simpl; [constructor|].
  destruct (f x); constructor; assumption.
Qed.

Lemma subseq_In (A : Type) (l1 l2 : list A) (x : A) :
  subseq l1 l2 -> In x l1 -> In x l2.
Proof.
  induction 1 as [|y l1 l2 _ IH|y l1 l2 _ IH]; simpl; intuition.
Qed.

Lemma truthy_true (s : jsstring) : truthy s = true <-> s <> [].
Proof. destruct s; simpl; split; congruence. Qed.

Lemma truthy_false (s : jsstring) : truthy s = false <-> s = [].
Proof. destruct s; simpl; split; congruence. Qed.

Variable toLowerCase : jsstring -> jsstring.

Lemma matchesTerm_passesTerm (term : jsstring) (e : Employee.t) :
  matchesTerm toLowerCase (normalised toLowerCase term) e = true
  <-> passesTerm toLowerCase term e.
Proof.
  unfold matchesTerm, passesTerm, contains.
  rewrite !orb_true_iff, !includes_app. tauto.
Qed.

Lemma passesb_passes (term category : jsstring) (e : Employee.t) :
  passesb toLowerCase term category e = true
  <-> passes toLowerCase term category e.
Proof.
  unfold passesb, passes.
  rewrite andb_true_iff, !orb_true_iff, !negb_true_iff, !truthy_false.
  rewrite matchesTerm_passesTerm, str_eqb_eq.
  destruct (normalised toLowerCase term) eqn:Et; destruct category;
    intuition congruence.
Qed.

Hypothesis toLowerCase_empty : toLowerCase [] = [].

Lemma filteredEmployees_filter (l : list Employee.t) (term category : jsstring) :
  filteredEmployees toLowerCase l term category
  = filter (passesb toLowerCase term category) l.
Proof.
  unfold filteredEmployees.
  assert (Hterm :
    (if truthy term
     then filter (matchesTerm toLowerCase (trim (toLowerCase term))) l
     else l)
    = filter (fun e => negb (truthy (normalised toLowerCase term))
                       || matchesTerm toLowerCase (normalised toLowerCase term) e)
             l).
  { destruct term as [|c term].
    - simpl. unfold normalised. rewrite toLowerCase_empty. simpl.
      now rewrite filter_all.
    - cbn [truthy]. fold (normalised toLowerCase (c :: term)).
      apply filter_ext. intros e.
      destruct (normalised toLowerCase (c :: term)) eqn:Et; [|reflexivity].
      simpl. unfold matchesTerm. now rewrite includes_nil. }
  rewrite Hterm.
  destruct category as [|c category].
  - cbn [truthy]. apply filter_ext. intros e. unfold passesb. simpl.
    now rewrite andb_true_r.
  - cbn [truthy]. rewrite filter_twice. apply filter_ext. intros e.
    unfold passesb. reflexivity.
Qed.

End FilterFacts.

(** C4.  The filter stage returns the input records that pass both
    conditions, each binding only when it is set, as they are and in their
    order: the term, lower-cased and trimmed, occurs in the lower-cased name,
    e-mail, phone, category or handle, and the category of the record is the
    requested one.  The output is a subsequence of the input. *)
Theorem filter_stage_exact :
  forall (toLowerCase : jsstring -> jsstring)
         (records : list Employee.t) (term category : jsstring),
    toLowerCase [] = [] ->
    let out := filteredEmployees toLowerCase records term category in
    out = filter (passesb toLowerCase term category) records
    /\ (forall e, passesb toLowerCase term category e = true
                  <-> passes toLowerCase term category e)
    /\ (forall e, In e out <-> In e records /\ passes toLowerCase term category e)
    /\ subseq out records.
Proof.
  intros toLowerCase records term category Hempty out.
  assert (E : out = filter (passesb toLowerCase term category) records)
    by (apply filteredEmployees_filter; assumption).
  split; [exact E|]. split; [apply passesb_passes|]. split.
  - intros e. rewrite E, filter_In, passesb_passes. tauto.
  - rewrite E. apply filter_subseq.
Qed.

Lemma filter_stage_exact_witness :
  asciiLowerCase [] = []
  /\ filteredEmployees asciiLowerCase mockEmployees (js " LEANNE ") (js "Engineering")
     = [leanne]
  /\ subseq
       (filteredEmployees asciiLowerCase mockEmployees (js " LEANNE ") (js "Sales"))
       mockEmployees.
Proof.
  split; [reflexivity|]. split; [vm_compute; reflexivity|].
  apply (filter_stage_exact asciiLowerCase mockEmployees
           (js " LEANNE ") (js "Sales")).
  reflexivity.
Defined.

(* ================================================================== *)
(** * Sorting *)
(* ================================================================== *)

Section SortFacts.
Variable A : Type.
Variable compareFn : A -> A -> Z.

Lemma insert_perm (x : A) (l : list A) :
  Permutation (insert compareFn x l) (x :: l).
Proof.
  induction l as [|y l IH]; simpl.
  - apply Permutation_refl.
  - destruct (compareFn x y <=? 0)%Z.
    + apply Permutation_refl.
    + eapply perm_trans; [apply perm_skip, IH | apply perm_swap].
Qed.

Lemma sort_perm (l : list A) : Permutation (sort compareFn l) l.
Proof.
  induction l as [|x l IH]; simpl.
  - apply perm_nil.
  - eapply perm_trans; [apply insert_perm | now apply perm_skip].
Qed.

Lemma sort_length (l : list A) :
  List.length (sort compareFn l) = List.length l.
Proof. apply Permutation_length, sort_perm. Qed.

(** [a] may stand in front of [b]. *)
Let before (a b : A) : Prop := (compareFn a b <= 0)%Z.

Hypothesis compareFn_total :
  forall a b, (0 < compareFn a b)%Z -> (compareFn b a <= 0)%Z.

Lemma insert_HdRel (x y : A) (l : list A) :
  before y x -> HdRel before y l -> HdRel before y (insert compareFn x l).
Proof.
  intros Hyx Hy. destruct l as [|z l]; simpl.
  - now constructor.
  - destruct (compareFn x z <=? 0)%Z; constructor.
    + exact Hyx.
    + now inversion Hy.
Qed.

Lemma insert_Sorted (x : A) (l : list A) :
  Sorted before l -> Sorted before (insert compareFn x l).
Proof.
  induction 1 as [|y l Hl IH Hy]; simpl.
  - repeat constructor.
  - destruct (compareFn x y <=? 0)%Z eqn:E.
    + constructor; [now constructor|]. constructor.
      unfold before. lia.
    + constructor; [exact IH|]. apply insert_HdRel; [|exact Hy].
      apply compareFn_total. lia.
Qed.

Lemma sort_Sorted (l : list A) : Sorted before (sort compareFn l).
Proof.
  induction l as [|x l IH]; simpl.
  - constructor.
  - now apply insert_Sorted.
Qed.

End SortFacts.


Lemma restoreEmployee_perm (r : Employee.t) (l : list Employee.t) :
  Permutation (restoreEmployee r l) (r :: l).
Proof.
  unfold restoreEmployee. eapply perm_trans; [apply sort_perm|].
  apply Permutation_sym, Permutation_cons_append.
Qed.


(* ================================================================== *)
(** * Delete with rollback *)
(* ================================================================== *)




(* ================================================================== *)
(** * Identifiers *)
(* ================================================================== *)

Section Identifiers.

Lemma Math_max_ge (l : list Z) (z x : Z) :
  In x l -> (x <= Math_max l z)%Z.
Proof.
  induction l as [|y l IH]; simpl; [tauto|].
  intros [->|H]; [lia|]. specialize (IH H). lia.
Qed.

Lemma Math_max_base (l : list Z) (z : Z) : (z <= Math_max l z)%Z.
Proof. induction l as [|y l IH]; simpl; lia. Qed.

(** Up to [2^53] in absolute value an integer is a number. *)
Lemma roundDouble_safe (z : Z) :
  (Z.abs z <= 2 ^ 53)%Z -> roundDouble z = z.
Proof.
  intros Hz. unfold roundDouble.
  destruct (Z.abs z <? 2 ^ 53)%Z eqn:E; [reflexivity|].
  apply Z.ltb_ge in E.
  assert (Ha : Z.abs z = (2 ^ 53)%Z) by lia.
  change (2 ^ 53)%Z with 9007199254740992%Z in Ha.
  assert (Hz' : z = 9007199254740992%Z \/ z = (- 9007199254740992)%Z) by lia.
  destruct Hz' as [-> | ->]; vm_compute; reflexivity.
Qed.

(** One more than a safe integer that is not negative is exact. *)
Lemma addNumber_safe (m : Z) :
  (0 <= m <= MAX_SAFE_INTEGER)%Z -> addNumber m 1 = (m + 1)%Z.
Proof.
  unfold MAX_SAFE_INTEGER. change (2 ^ 53 - 1)%Z with 9007199254740991%Z.
  intros Hm. unfold addNumber. apply roundDouble_safe.
  change (2 ^ 53)%Z with 9007199254740992%Z. lia.
Qed.

Lemma addCreated_fresh (l : list Employee.t) :
  (Math_max (ids l) 0 <= MAX_SAFE_INTEGER)%Z ->
  addNumber (Math_max (ids l) 0) 1 = (Math_max (ids l) 0 + 1)%Z
  /\ ~ In (addNumber (Math_max (ids l) 0) 1) (ids l).
Proof.
  intros Hsafe.
  assert (E : addNumber (Math_max (ids l) 0) 1 = (Math_max (ids l) 0 + 1)%Z).
  { apply addNumber_safe. split; [apply Math_max_base | exact Hsafe]. }
  split; [exact E|]. rewrite E. intros H. apply (Math_max_ge _ 0) in H. lia.
Qed.

Lemma spread_id (x : Employee.t) (u : Body.t) :
  Employee.id (spread x u) = pick (Body.id u) (Employee.id x).
Proof. reflexivity. Qed.

Lemma applyUpdate_ids (e : Employee.t) (u : Body.t) (l : list Employee.t) :
  Body.id u = None \/ Body.id u = Some (Employee.id e) ->
  ids (applyUpdate e u l) = ids l.
Proof.
  intros Hu. unfold ids, applyUpdate. rewrite map_map. apply map_ext.
  intros x. destruct (Employee.id x =? Employee.id e)%Z eqn:E; [|reflexivity].
  apply Z.eqb_eq in E. rewrite spread_id.
  destruct Hu as [-> | ->]; simpl; congruence.
Qed.

Lemma applyUpdate_others (e : Employee.t) (u : Body.t) (x : Employee.t)
    (l : list Employee.t) :
  In x l -> Employee.id x <> Employee.id e -> In x (applyUpdate e u l).
Proof.
  intros Hx Hne. unfold applyUpdate. apply in_map_iff. exists x. split.
  - apply Z.eqb_neq in Hne. now rewrite Hne.
  - exact Hx.
Qed.

Lemma removeEmployee_ids (r : Employee.t) (l : list Employee.t) :
  ids (removeEmployee r l)
  = filter (fun i => negb (i =? Employee.id r)%Z) (ids l).
Proof.
  unfold ids, removeEmployee. induction l as [|x l IH]; simpl; [reflexivity|].
  destruct (Employee.id x =? Employee.id r)%Z; simpl; now rewrite IH.
Qed.

Lemma removeEmployee_gone (r : Employee.t) (l : list Employee.t) :
  ~ In (Employee.id r) (ids (removeEmployee r l)).
Proof.
  rewrite removeEmployee_ids, filter_In, negb_true_iff, Z.eqb_neq. tauto.
Qed.

Lemma restoreEmployee_ids (r : Employee.t) (l : list Employee.t) :
  Permutation (ids (restoreEmployee r l)) (Employee.id r :: ids l).
Proof.
  unfold ids. change (Employee.id r :: map Employee.id l)
    with (map Employee.id (r :: l)).
  apply Permutation_map, restoreEmployee_perm.
Qed.

(** One admissible operation keeps the identifiers distinct. *)
Lemma run_op_NoDup (l : list Employee.t) (o : op) :
  NoDup (ids l) -> admissible l o -> NoDup (ids (run_op o l)).
Proof.
  intros Hl Ho. destruct o as [snapshot n|e u|r|r]; simpl in *.
  - destruct Ho as [-> Hsafe]. constructor; [|exact Hl].
    apply addCreated_fresh, Hsafe.
  - now rewrite applyUpdate_ids.
  - rewrite removeEmployee_ids. now apply NoDup_filter.
  - eapply Permutation_NoDup.
    + apply Permutation_sym, restoreEmployee_ids.
    + now constructor.
Qed.

Lemma run_NoDup (ops : list op) :
  forall l, NoDup (ids l) -> admissible_run l ops -> NoDup (ids (run ops l)).
Proof.
  induction ops as [|o ops IH]; simpl; intros l Hl Hops.
  - exact Hl.
  - destruct Hops as [Ho Hops]. apply IH; [|exact Hops].
    now apply run_op_NoDup.
Qed.

End Identifiers.

(** C8.  The identifier of a created record is computed from the collection
    of the render the handler was created in, not from the collection the
    record is added to, and by an addition of numbers; the rollback of a
    failed delete puts its record back whatever the collection holds by
    then; the edited record takes the identifier of the answer.  So the
    handlers do not keep the identifiers distinct.  A delete of
    [clementine] fails while a create issued from the render without her is
    awaited: the rollback puts her back, and the new record is numbered 3 as
    she is.  A delete of the only record fails after a create went through:
    two records carry identifier 1.  A create from the render of the current
    collection, whose greatest identifier is [2^53], numbers its record
    [2^53] again.  An update answered with another identifier renumbers the
    edited record onto an existing one. *)
Theorem create_numbers_from_render :
  (forall (render : list Employee.t) (n : Employee.t) (l : list Employee.t),
      ids (run_op (Create render n) l)
      = addNumber (Math_max (ids render) 0) 1 :: ids l)
  /\ NoDup (ids mockEmployees)
  /\ ids (run staleCreate mockEmployees) = [3; 1; 2; 3]%Z
  /\ ~ NoDup (ids (run staleCreate mockEmployees))
  /\ NoDup (ids [leanne])
  /\ ids (run interleaved [leanne]) = [1; 1]%Z
  /\ ~ NoDup (ids (run interleaved [leanne]))
  /\ NoDup (ids [distant])
  /\ ids (run distantCreate [distant]) = [2 ^ 53; 2 ^ 53]%Z
  /\ ~ NoDup (ids (run distantCreate [distant]))
  /\ ids (run strayUpdate mockEmployees) = [2; 2; 3]%Z
  /\ ~ NoDup (ids (run strayUpdate mockEmployees)).
Proof.
  assert (E1 : ids (run staleCreate mockEmployees) = [3; 1; 2; 3]%Z)
    by (vm_compute; reflexivity).
  assert (E2 : ids (run interleaved [leanne]) = [1; 1]%Z)
    by (vm_compute; reflexivity).
  assert (E3 : ids (run distantCreate [distant]) = [2 ^ 53; 2 ^ 53]%Z)
    by (vm_compute; reflexivity).
  assert (E4 : ids (run strayUpdate mockEmployees) = [2; 2; 3]%Z)
    by (vm_compute; reflexivity).
  assert (Hdup : forall (x : Z) (t : list Z), In x t -> ~ NoDup (x :: t)).
  { intros x t Hx H. inversion H as [|? ? Hn _]; subst. exact (Hn Hx). }
  refine (conj _ (conj _ (conj E1 (conj _ (conj _ (conj E2 (conj _
            (conj _ (conj E3 (conj _ (conj E4 _)))))))))));
    try (rewrite ?E1, ?E2, ?E3, ?E4; apply Hdup; simpl; tauto).
  - intros render n l. reflexivity.
  - repeat constructor; simpl; intuition discriminate.
  - repeat constructor; simpl; tauto.
  - repeat constructor; simpl; tauto.
Qed.

(* ================================================================== *)
(** * The phone validator *)
(* ================================================================== *)

Section PhoneFacts.

Lemma plus_phone_class (c : N) :
  one_of (js "+") c = true -> phone_class c = true.
Proof.
  unfold one_of. simpl. rewrite orb_false_r, N.eqb_eq. intros ->. reflexivity.
Qed.

Lemma space_phone_class (c : N) : is_space c = true -> phone_class c = true.
Proof.
  intros H. unfold phone_class. rewrite H. now rewrite orb_true_r.
Qed.

Lemma spaces_phone_class (p : jsstring) :
  forallb is_space p = true -> forallb phone_class p = true.
Proof.
  rewrite !forallb_forall. intros H c Hc. now apply space_phone_class, H.
Qed.

(** The pattern accepts the non-empty strings of its class: the optional
    plus sign in front adds nothing, the class has the plus sign. *)
Lemma phoneRegex_lang (t : jsstring) :
  lang phoneRegex t <-> t <> [] /\ forallb phone_class t = true.
Proof.
  unfold phoneRegex, Opt. split.
  - intros H. apply lang_Cat_inv in H as [s1 [s2 [-> [H1 H2]]]].
    apply lang_plus_class in H2 as [Hne H2].
    apply lang_Alt_inv in H1 as [H1|H1].
    + apply lang_Class_inv in H1 as [c [-> Hc]]. simpl. split; [discriminate|].
      rewrite H2, (plus_phone_class c Hc). reflexivity.
    + apply lang_Eps_inv in H1. subst s1. simpl. now split.
  - intros H. change t with ([] ++ t). apply L_cat.
    + apply L_alt_r, L_eps.
    + now apply lang_plus_class.
Qed.

Lemma forallb_phone_class_trim (s : jsstring) :
  forallb phone_class (trim s) = forallb phone_class s.
Proof.
  destruct (trim_split s) as [p [q [E [Hp Hq]]]].
  rewrite E at 2. rewrite !forallb_app.
  rewrite (spaces_phone_class p Hp), (spaces_phone_class q Hq).
  now rewrite andb_true_r.
Qed.

Lemma test_phoneRegex (phone : jsstring) :
  trim phone <> [] ->
  test phoneRegex (trim phone) = forallb phone_class phone.
Proof.
  intros Hne. rewrite <- forallb_phone_class_trim.
  destruct (forallb phone_class (trim phone)) eqn:E.
  - apply test_spec, phoneRegex_lang. now split.
  - destruct (test phoneRegex (trim phone)) eqn:T; [|reflexivity].
    apply test_spec, phoneRegex_lang in T. destruct T as [_ T]. congruence.
Qed.

Lemma validatePhone_checked (phone : jsstring) :
  trim phone <> [] -> (10 <= List.length (digitsOnly phone))%nat ->
  validatePhone phone
  = mkResult (forallb phone_class phone)
      (if forallb phone_class phone then js ""
       else js "Please enter a valid phone number").
Proof.
  intros Hne Hge. unfold validatePhone.
  rewrite (proj2 (truthy_true _) Hne). simpl negb. cbv iota.
  rewrite (proj2 (Nat.ltb_ge _ _) Hge).
  now rewrite test_phoneRegex.
Qed.

End PhoneFacts.

(** C3, as the code has it.  A blank text is "Phone number is required";
    otherwise less than ten digits is "Phone number must contain at least 10
    digits", whatever else the text holds; otherwise the text is valid
    exactly when each of its characters is a digit, white space, a
    parenthesis, a hyphen, a dot or a plus sign, wherever the plus signs
    stand, and "Please enter a valid phone number" when not. *)
Theorem validatePhone_allow_list :
  forall phone : jsstring,
    (trim phone = [] ->
       validatePhone phone = mkResult false (js "Phone number is required"))
    /\ (trim phone <> [] -> (List.length (digitsOnly phone) < 10)%nat ->
          validatePhone phone =
          mkResult false (js "Phone number must contain at least 10 digits"))
    /\ (trim phone <> [] -> (10 <= List.length (digitsOnly phone))%nat ->
          (isValid (validatePhone phone) = true
           <-> forallb phone_class phone = true)
          /\ (forallb phone_class phone = true ->
                validatePhone phone = mkResult true (js ""))
          /\ (forallb phone_class phone = false ->
                validatePhone phone =
                mkResult false (js "Please enter a valid phone number")))
    /\ (forall c, phone_class c = plain c || (c =? 43)%N).
Proof.
  intros phone.
  refine (conj _ (conj _ (conj _ _))).
  - unfold validatePhone. intros ->. reflexivity.
  - intros Hne Hlt. unfold validatePhone.
    apply truthy_true in Hne. rewrite Hne. simpl negb. cbv iota.
    apply Nat.ltb_lt in Hlt. now rewrite Hlt.
  - intros Hne Hge. rewrite (validatePhone_checked phone Hne Hge).
    destruct (forallb phone_class phone); simpl.
    + repeat split; try reflexivity; discriminate.
    + repeat split; try reflexivity; discriminate.
  - intros c. unfold phone_class, plain, one_of. simpl.
    destruct (is_digit c), (is_space c), (c =? 40)%N, (c =? 41)%N,
      (c =? 45)%N, (c =? 46)%N, (c =? 43)%N; reflexivity.
Qed.

Lemma validatePhone_allow_list_witness :
  trim (js "+1-770-736-8031") <> []
  /\ validatePhone (js "+1-770-736-8031") = mkResult true (js "").
Proof.
  assert (H : trim (js "+1-770-736-8031") <> []) by (vm_compute; discriminate).
  split; [exact H|].
  apply (proj1 (proj2 (proj2 (validatePhone_allow_list (js "+1-770-736-8031")))) H).
  - vm_compute. lia.
  - vm_compute. reflexivity.
Defined.

(** C3, as it is stated, fails: "1234567890+" has ten digits and a plus sign
    that is not in the leading position, and [validatePhone] finds it
    valid. *)
Lemma validatePhone_allow_list_counterexample :
  validatePhone (js "1234567890+") = mkResult true (js "")
  /\ List.length (digitsOnly (js "1234567890+")) = 10%nat
  /\ leadingPlusOnly (js "1234567890+") = false.
Proof. repeat split; vm_compute; reflexivity. Qed.

(* ================================================================== *)
(** * The e-mail pattern, part by part *)
(* ================================================================== *)

Section EmailFacts.

(** [[class]{0,n}] matches the strings of the class of length [n] at most. *)
Lemma lang_upto_class (p : N -> bool) (n : nat) :
  forall s, lang (Upto n (Class p)) s
            <-> (List.length s <= n)%nat /\ forallb p s = true.
Proof.
  induction n as [|n IH]; intros s; simpl Upto.
  - split.
    + intros H. apply lang_Eps_inv in H. subst. now split.
    + intros [H _]. destruct s; [apply L_eps | simpl in H; lia].
  - unfold Opt. split.
    + intros H. apply lang_Alt_inv in H as [H|H].
      * apply lang_Cat_inv in H as [s1 [s2 [-> [H1 H2]]]].
        apply lang_Class_inv in H1 as [c [-> Hc]].
        apply IH in H2 as [Hlen Hall]. simpl. rewrite Hc, Hall.
        split; [lia | reflexivity].
      * apply lang_Eps_inv in H. subst. simpl. split; [lia | reflexivity].
    + intros [Hlen Hall]. destruct s as [|c s].
      * apply L_alt_r, L_eps.
      * simpl in Hlen, Hall. apply andb_true_iff in Hall as [Hc Hall].
        apply L_alt_l. change (c :: s) with ([c] ++ s).
        apply L_cat; [now apply L_class|]. apply IH. split; [lia | assumption].
Qed.

(** [r*] matches the concatenations of strings that [r] matches. *)
Lemma lang_star_concat (r : regex) (s : jsstring) :
  lang (Star r) s <-> exists ss, s = List.concat ss /\ Forall (lang r) ss.
Proof.
  split.
  - intros H. remember (Star r) as q eqn:Eq.
    induction H as [| | | | | |r0 s1 s2 H1 _ H2 IH2]; try discriminate.
    + now exists [].
    + inversion Eq; subst r0. destruct (IH2 eq_refl) as [ss [-> Hss]].
      exists (s1 :: ss). split; [reflexivity | now constructor].
  - intros [ss [-> Hss]]. induction Hss as [|x ss Hx _ IH]; simpl.
    + apply L_star_nil.
    + now apply L_star_app.
Qed.

Lemma alnum_alnum_hyphen (c : N) : is_alnum c = true -> alnum_hyphen c = true.
Proof. intros H. unfold alnum_hyphen. now rewrite H. Qed.

Lemma label_lang (l : jsstring) : lang label l <-> is_label l.
Proof.
  unfold label, Opt, is_label. split.
  - intros H. apply lang_Cat_inv in H as [s1 [s2 [-> [H1 H2]]]].
    apply lang_Class_inv in H1 as [c [-> Hc]].
    apply lang_Alt_inv in H2 as [H2|H2].
    + apply lang_Cat_inv in H2 as [mid [e [-> [Hm He]]]].
      apply lang_upto_class in Hm as [Hlen Hmid].
      apply lang_Class_inv in He as [d [-> Hd]].
      change ([c] ++ mid ++ [d]) with (c :: mid ++ [d]).
      repeat split.
      * simpl. lia.
      * simpl. rewrite length_app. simpl. lia.
      * simpl. rewrite forallb_app, Hmid. simpl.
        now rewrite (alnum_alnum_hyphen c Hc), (alnum_alnum_hyphen d Hd).
      * exact Hc.
      * change (c :: mid ++ [d]) with ((c :: mid) ++ [d]).
        now rewrite last_last.
    + apply lang_Eps_inv in H2. subst. simpl.
      rewrite (alnum_alnum_hyphen c Hc).
      repeat split; try lia; try reflexivity; assumption.
  - intros [[Hlo Hhi] [Hall [Hhd Hlast]]].
    destruct l as [|c t]; [simpl in Hlo; lia|].
    simpl in Hhd, Hhi, Hall. apply andb_true_iff in Hall as [_ Hall].
    change (c :: t) with ([c] ++ t). apply L_cat; [now apply L_class|].
    destruct t as [|x t'] eqn:Et; [apply L_alt_r, L_eps|].
    apply L_alt_l. rewrite <- Et in *.
    assert (Hne : t <> []) by (rewrite Et; discriminate).
    rewrite (app_removelast_last 0%N Hne).
    assert (Hl : last (c :: t) 0%N = last t 0%N)
      by (rewrite Et; reflexivity).
    rewrite Hl in Hlast.
    apply L_cat; [|now apply L_class].
    apply lang_upto_class. split.
    + assert (Hlen : List.length t
                     = S (List.length (removelast t))).
      { rewrite (app_removelast_last 0%N Hne) at 1.
        rewrite length_app. simpl. lia. }
      lia.
    + rewrite (app_removelast_last 0%N Hne), forallb_app in Hall.
      now apply andb_true_iff in Hall as [Hall _].
Qed.

(** What [emailRegex] accepts: a non-empty local part, one [@], one label,
    then any number, none included, of labels each behind a dot. *)
Theorem emailRegex_lang (s : jsstring) :
  lang emailRegex s
  <-> exists local l ls,
        s = local ++ 64%N :: l ++ List.concat (map (cons 46%N) ls)
        /\ local <> []
        /\ forallb email_local local = true
        /\ is_label l
        /\ Forall is_label ls.
Proof.
  unfold emailRegex. split.
  - intros H. apply lang_Cat_inv in H as [local [s2 [-> [Hl H]]]].
    apply lang_plus_class in Hl as [Hne Hl].
    apply lang_Cat_inv in H as [a [s3 [-> [Ha H]]]].
    apply lang_Class_inv in Ha as [c [-> Hc]].
    assert (c = 64%N) as ->.
    { unfold one_of in Hc. simpl in Hc. rewrite orb_false_r in Hc.
      now apply N.eqb_eq in Hc. }
    apply lang_Cat_inv in H as [l [s4 [-> [Hlab H]]]].
    apply label_lang in Hlab.
    apply lang_star_concat in H as [ss [-> Hss]].
    assert (Hls : exists ls, ss = map (cons 46%N) ls /\ Forall is_label ls).
    { induction Hss as [|x ss Hx _ [ls [-> Hls]]].
      - now exists [].
      - apply lang_Cat_inv in Hx as [d [y [-> [Hd Hy]]]].
        apply lang_Class_inv in Hd as [e [-> He]].
        assert (e = 46%N) as ->.
        { unfold one_of in He. simpl in He. rewrite orb_false_r in He.
          now apply N.eqb_eq in He. }
        apply label_lang in Hy. exists (y :: ls). split; [reflexivity|].
        now constructor. }
    destruct Hls as [ls [-> Hls]].
    exists local, l, ls.
    exact (conj eq_refl (conj Hne (conj Hl (conj Hlab Hls)))).
  - intros [local [l [ls [-> [Hne [Hl [Hlab Hls]]]]]]].
    apply L_cat; [now apply lang_plus_class|].
    change (64%N :: l ++ List.concat (map (cons 46%N) ls))
      with ([64%N] ++ l ++ List.concat (map (cons 46%N) ls)).
    apply L_cat; [now apply L_class|].
    apply L_cat; [now apply label_lang|].
    apply lang_star_concat. exists (map (cons 46%N) ls). split; [reflexivity|].
    induction Hls as [|y ls Hy _ IH]; simpl; constructor; [|exact IH].
    change (46%N :: y) with ([46%N] ++ y).
    apply L_cat; [now apply L_class | now apply label_lang].
Qed.

(** The pattern accepts every address whose domain is a single label. *)
Corollary emailRegex_single_label (local l : jsstring) :
  local <> [] -> forallb email_local local = true -> is_label l ->
  test emailRegex (local ++ 64%N :: l) = true.
Proof.
  intros Hne Hl Hlab. apply test_spec, emailRegex_lang.
  exists local, l, []. simpl. rewrite app_nil_r.
  exact (conj eq_refl (conj Hne (conj Hl (conj Hlab (Forall_nil _))))).
Qed.

End EmailFacts.

(* ================================================================== *)
(** * The e-mail validator *)
(* ================================================================== *)

(** What [validateEmail] answers, for every text: "Email is required" on a
    blank one; otherwise valid, with an empty message, exactly when the
    trimmed text is a local part, an [@] and one label or more joined by
    dots, and the format message when not. *)
Lemma validateEmail_structure (email : jsstring) :
  (trim email = [] ->
     validateEmail email = mkResult false (js "Email is required"))
  /\ (trim email <> [] ->
        (isValid (validateEmail email) = true
         <-> exists local l ls,
               trim email = local ++ 64%N :: l ++ List.concat (map (cons 46%N) ls)
               /\ local <> []
               /\ forallb email_local local = true
               /\ is_label l
               /\ Forall is_label ls)
        /\ (isValid (validateEmail email) = true ->
              message (validateEmail email) = js "")
        /\ (isValid (validateEmail email) = false ->
              message (validateEmail email)
              = js "Please enter a valid email address (e.g., name@example.com)")).
Proof.
  unfold validateEmail. split.
  - intros ->. reflexivity.
  - intros Hne. rewrite (proj2 (truthy_true _) Hne). simpl negb. cbv iota zeta.
    cbn [isValid message].
    refine (conj _ (conj _ _)).
    + rewrite test_spec. apply emailRegex_lang.
    + intros ->. reflexivity.
    + intros ->. reflexivity.
Qed.

(** C2.  [validateEmail] finds "test@example" valid, with an empty message,
    although its domain part has no dot. *)
Theorem validateEmail_dotless_domain :
  validateEmail (js "test@example") = mkResult true (js "")
  /\ includes (js "example") (js ".") = false.
Proof. split; vm_compute; reflexivity. Qed.

(* ================================================================== *)
(** * The cases of the test suite, evaluated *)
(* ================================================================== *)

Section Checks.

Let valid : ValidationResult := mkResult true (js "").

Example validateEmail_accepts :
  map validateEmail
    [ js "test@example.com"; js "user.name@domain.co.uk";
      js "user+tag@example.org"; js "firstname.lastname@company.com" ]
  = [valid; valid; valid; valid].
Proof. vm_compute. reflexivity. Qed.

Example validateEmail_rejects :
  map (fun s => isValid (validateEmail s))
    [ js "testexample.com"; js "test@"; js "@example.com";
      js "test @example.com"; js "invalid-email" ]
  = [false; false; false; false; false]
  /\ validateEmail (js "invalid-email")
     = mkResult false
         (js "Please enter a valid email address (e.g., name@example.com)")
  /\ validateEmail (js "") = mkResult false (js "Email is required").
Proof. repeat split; vm_compute; reflexivity. Qed.

(** Two consecutive dots in the local part are accepted as well. *)
Example validateEmail_double_dot :
  validateEmail (js "test..test@example.com") = valid.
Proof. vm_compute. reflexivity. Qed.

Example validatePhone_accepts :
  map validatePhone
    [ js "1-770-736-8031"; js "1 770 736 8031"; js "(770) 736-8031";
      js "+1-770-736-8031"; js "17707368031"; js "1.770.736.8031" ]
  = [valid; valid; valid; valid; valid; valid].
Proof. vm_compute. reflexivity. Qed.

Example validatePhone_rejects :
  validatePhone (js "123456789")
  = mkResult false (js "Phone number must contain at least 10 digits")
  /\ validatePhone (js "123")
     = mkResult false (js "Phone number must contain at least 10 digits")
  /\ validatePhone (js "") = mkResult false (js "Phone number is required")
  /\ validatePhone (js "1-770-736-8031 x56442")
     = mkResult false (js "Please enter a valid phone number").
Proof. repeat split; vm_compute; reflexivity. Qed.

(** Six digits and letters: the count of digits answers first. *)
Example validatePhone_digits_first :
  validatePhone (js "123-456-abcd")
  = mkResult false (js "Phone number must contain at least 10 digits").
Proof. vm_compute. reflexivity. Qed.

Example validateName_cases :
  map validateName
    [ js "John Doe"; js "Mary-Jane Smith"; js "O'Connor";
      js "Jean-Luc Picard"; js "Dr. Smith" ]
  = [valid; valid; valid; valid; valid]
  /\ validateName (js "A")
     = mkResult false (js "Name must be at least 2 characters long")
  /\ validateName (js "John123")
     = mkResult false
         (js "Name can only contain letters, spaces, hyphens, and apostrophes")
  /\ validateName (js "") = mkResult false (js "Name is required").
Proof. repeat split; vm_compute; reflexivity. Qed.

Example validateDepartment_cases :
  map validateDepartment
    [ js "Engineering"; js "Marketing"; js "Sales"; js "Human Resources";
      js "Finance" ]
  = [valid; valid; valid; valid; valid]
  /\ validateDepartment (js "InvalidDepartment")
     = mkResult false (js "Please select a valid department")
  /\ validateDepartment (js "")
     = mkResult false (js "Department is required").
Proof. repeat split; vm_compute; reflexivity. Qed.

Example validateEmployeeForm_valid :
  validateEmployeeForm (asObject johnDoe)
  = [ ("name"%string, valid); ("email"%string, valid);
      ("phone"%string, valid); ("department"%string, valid) ]
  /\ isFormValid (validateEmployeeForm (asObject johnDoe)) = true.
Proof. split; vm_compute; reflexivity. Qed.

Example getFirstErrorMessage_first :
  getFirstErrorMessage
    [ ("name"%string, mkResult false (js "Name is required"));
      ("email"%string, mkResult false (js "Invalid email"));
      ("phone"%string, valid); ("department"%string, valid) ]
  = js "Name is required".
Proof. reflexivity. Qed.

Let sortedBy (k : SortKey) (d : Direction) : list Employee.t :=
  sortedEmployees asciiLowerCase mockEmployees (Some (mkSort k d)).

Example sort_by_name :
  sortedBy K_name asc = [clementine; ervin; leanne]
  /\ sortedBy K_name desc = [leanne; ervin; clementine]
  /\ sortedEmployees asciiLowerCase mockEmployees
       (handleSort K_name (Some (mkSort K_name desc)))
     = [leanne; ervin; clementine].
Proof. repeat split; vm_compute; reflexivity. Qed.

Example sort_by_other_columns :
  sortedBy K_id asc = [leanne; ervin; clementine]
  /\ sortedBy K_id desc = [clementine; ervin; leanne]
  /\ sortedBy K_email asc = [clementine; ervin; leanne]
  /\ sortedBy K_department asc = [leanne; ervin; clementine].
Proof. repeat split; vm_compute; reflexivity. Qed.

Example search_and_category :
  filteredEmployees asciiLowerCase mockEmployees (js "Leanne") (js "") = [leanne]
  /\ filteredEmployees asciiLowerCase mockEmployees (js "") (js "Engineering")
     = [leanne]
  /\ filteredEmployees asciiLowerCase mockEmployees (js "Leanne") (js "Sales")
     = [].
Proof. repeat split; vm_compute; reflexivity. Qed.

(** 25 records at 10 a page: three pages, the first one holds 10 records;
    at 25 a page: one page, which holds them all. *)
Example twenty_five_records :
  let many := map (fun i => withId leanne (Z.of_nat i)) (seq 1 25) in
  totalPages many 10 = 3%Z
  /\ ids (paginatedEmployees many 1 10) = [1; 2; 3; 4; 5; 6; 7; 8; 9; 10]%Z
  /\ ids (paginatedEmployees many 3 10) = [21; 22; 23; 24; 25]%Z
  /\ totalPages many 25 = 1%Z
  /\ paginatedEmployees many 1 25 = many.
Proof. repeat split; vm_compute; reflexivity. Qed.

(** A delete that goes through, and a delete that is not confirmed. *)
Example delete_resolved_or_cancelled :
  employees (snd (fst (handleDeleteEmployee true None leanne loaded)))
  = [ervin; clementine]
  /\ handleDeleteEmployee false None leanne loaded
     = (tt, loaded, [Ev_confirm (confirmPrompt leanne)]).
Proof. split; vm_compute; reflexivity. Qed.

(** A create on the loaded collection: the new record is numbered 4 and
    comes first. *)
Example create_on_loaded :
  ids (employees (fst (handleFormSave asciiLowerCase loaded johnDoe 0
                         (Resolved (complete leanne)) loaded)))
  = [4; 1; 2; 3]%Z.
Proof. vm_compute. reflexivity. Qed.

End Checks.

Unset Implicit Arguments.

(* ================================================================== *)
(** * The validators: what every answer has in common *)
(* ================================================================== *)

Section ValidatorFacts.

(** A result whose message is empty exactly when it is valid. *)
Let coherent (r : ValidationResult) : Prop :=
  isValid r = true <-> message r = [].

Lemma coherent_valid : coherent (mkResult true (js "")).
Proof. split; reflexivity. Qed.

Lemma coherent_invalid (m : jsstring) :
  m <> [] -> coherent (mkResult false m).
Proof. intros Hm. split; simpl; [discriminate | contradiction]. Qed.

Lemma coherent_tested (b : bool) (m : jsstring) :
  m <> [] -> coherent (mkResult b (if b then js "" else m)).
Proof.
  intros Hm. destruct b; [apply coherent_valid | now apply coherent_invalid].
Qed.

Lemma validateRequired_coherent (value fieldName : jsstring) :
  coherent (validateRequired value fieldName).
Proof.
  unfold validateRequired. apply coherent_tested.
  intros H. apply app_eq_nil in H as [_ H]. discriminate H.
Qed.

Lemma validateEmail_coherent (s : jsstring) : coherent (validateEmail s).
Proof.
  unfold validateEmail. destruct (negb (truthy (trim s))).
  - apply coherent_invalid. discriminate.
  - apply coherent_tested. discriminate.
Qed.

Lemma validatePhone_coherent (s : jsstring) : coherent (validatePhone s).
Proof.
  unfold validatePhone. destruct (negb (truthy (trim s))).
  - apply coherent_invalid. discriminate.
  - destruct (List.length (digitsOnly s) <? 10)%nat.
    + apply coherent_invalid. discriminate.
    + apply coherent_tested. discriminate.
Qed.

Lemma validateName_coherent (s : jsstring) : coherent (validateName s).
Proof.
  unfold validateName. destruct (negb (truthy (trim s))).
  - apply coherent_invalid. discriminate.
  - cbv zeta. destruct (List.length (trim s) <? 2)%nat.
    + apply coherent_invalid. discriminate.
    + apply coherent_tested. discriminate.
Qed.

Lemma validateDepartment_coherent (s : jsstring) :
  coherent (validateDepartment s).
Proof.
  unfold validateDepartment. destruct (negb (truthy (trim s))).
  - apply coherent_invalid. discriminate.
  - apply coherent_tested. discriminate.
Qed.

Lemma validatorOf_coherent (f : Field) (s : jsstring) :
  coherent (validatorOf f s).
Proof.
  destruct f; simpl.
  - apply validateName_coherent.
  - apply validateEmail_coherent.
  - apply validatePhone_coherent.
  - apply validateDepartment_coherent.
Qed.

End ValidatorFacts.

(** X1.  Whatever the text, each of the five validators answers with an
    empty message exactly when it answers valid. *)
Theorem validators_message_iff_valid :
  forall value fieldName : jsstring,
    (isValid (validateRequired value fieldName) = true
     <-> message (validateRequired value fieldName) = [])
    /\ (isValid (validateEmail value) = true
        <-> message (validateEmail value) = [])
    /\ (isValid (validatePhone value) = true
        <-> message (validatePhone value) = [])
    /\ (isValid (validateName value) = true
        <-> message (validateName value) = [])
    /\ (isValid (validateDepartment value) = true
        <-> message (validateDepartment value) = []).
Proof.
  intros value fieldName.
  refine (conj _ (conj _ (conj _ (conj _ _)))).
  - apply validateRequired_coherent.
  - apply validateEmail_coherent.
  - apply validatePhone_coherent.
  - apply validateName_coherent.
  - apply validateDepartment_coherent.
Qed.

(* ================================================================== *)
(** * Trimming *)
(* ================================================================== *)

Section TrimFacts.

Lemma trimStart_head (s : jsstring) :
  trimStart s = [] \/ is_space (hd 0%N (trimStart s)) = false.
Proof.
  induction s as [|c s IH]; simpl.
  - now left.
  - destruct (is_space c) eqn:Hc; [exact IH | right; exact Hc].
Qed.

Lemma trimStart_fixed (s : jsstring) :
  s = [] \/ is_space (hd 0%N s) = false -> trimStart s = s.
Proof.
  intros [->|H]; [reflexivity|].
  destruct s as [|c s]; [reflexivity|]. simpl in *. now rewrite H.
Qed.

Lemma hd_rev (s : jsstring) : hd 0%N (rev s) = last s 0%N.
Proof.
  induction s as [|c s IH] using rev_ind; [reflexivity|].
  now rewrite rev_app_distr, last_last.
Qed.

Lemma hd_app (s t : jsstring) : s <> [] -> hd 0%N (s ++ t) = hd 0%N s.
Proof. destruct s; [congruence | reflexivity]. Qed.

(** A trimmed text is empty, or begins and ends with no white space. *)
Lemma trim_tight (s : jsstring) :
  trim s = []
  \/ (is_space (hd 0%N (trim s)) = false
      /\ is_space (last (trim s) 0%N) = false).
Proof.
  unfold trim, trimEnd. remember (trimStart s) as u eqn:Eu.
  destruct (trimStart_split (rev u)) as [p [Hr Hp]].
  pose proof (trimStart_head (rev u)) as Hh.
  remember (trimStart (rev u)) as r eqn:Er.
  destruct r as [|c r']; [now left|]. right.
  destruct Hh as [Hh|Hh]; [discriminate|].
  assert (Hne : rev (c :: r') <> []).
  { simpl. intros E. now apply app_eq_nil in E as [_ E]. }
  split.
  - assert (Hu : u = rev (c :: r') ++ rev p).
    { rewrite <- rev_app_distr, <- Hr. symmetry. apply rev_involutive. }
    pose proof (trimStart_head s) as Hs. rewrite <- Eu in Hs.
    destruct Hs as [E|Hs].
    + rewrite E in Hu. symmetry in Hu. apply app_eq_nil in Hu as [Hu _].
      contradiction.
    + rewrite Hu, hd_app in Hs by assumption. exact Hs.
  - rewrite <- hd_rev, rev_involutive. exact Hh.
Qed.

(** Trimming a trimmed text changes nothing. *)
Lemma trim_idem (s : jsstring) : trim (trim s) = trim s.
Proof.
  destruct (trim_tight s) as [E|[Hh Hl]].
  - rewrite E. reflexivity.
  - set (t := trim s) in *. unfold trim at 1, trimEnd.
    rewrite (trimStart_fixed t) by now right.
    rewrite (trimStart_fixed (rev t)).
    + apply rev_involutive.
    + right. now rewrite hd_rev.
Qed.

(** A class that holds the white space does not tell a text from its
    trimmed form. *)
Lemma forallb_trim (p : N -> bool) (s : jsstring) :
  (forall c, is_space c = true -> p c = true) ->
  forallb p (trim s) = forallb p s.
Proof.
  intros Hp. destruct (trim_split s) as [a [b [E [Ha Hb]]]].
  assert (H : forall l, forallb is_space l = true -> forallb p l = true).
  { intros l. rewrite !forallb_forall. intros Hl c Hc. now apply Hp, Hl. }
  rewrite E at 2. rewrite !forallb_app, (H a Ha), (H b Hb).
  now rewrite andb_true_r.
Qed.

Lemma space_not_digit (c : N) : is_space c = true -> is_digit c = false.
Proof.
  unfold is_space, is_digit, in_range. intros H.
  repeat (apply orb_true_iff in H as [H|H]);
    repeat (apply andb_true_iff in H as [? ?]);
    apply andb_false_iff;
    repeat match goal with
           | E : (_ =? _)%N = true |- _ => apply N.eqb_eq in E
           | E : (_ <=? _)%N = true |- _ => apply N.leb_le in E
           end;
    rewrite !N.leb_gt; lia.
Qed.

Lemma digitsOnly_spaces (l : jsstring) :
  forallb is_space l = true -> digitsOnly l = [].
Proof.
  unfold digitsOnly. induction l as [|c l IH]; simpl; [reflexivity|].
  intros H. apply andb_true_iff in H as [Hc Hl].
  now rewrite (space_not_digit c Hc), IH.
Qed.

(** The digits of a text are those of its trimmed form. *)
Lemma digitsOnly_trim (s : jsstring) : digitsOnly (trim s) = digitsOnly s.
Proof.
  destruct (trim_split s) as [a [b [E [Ha Hb]]]].
  rewrite E at 2. unfold digitsOnly. rewrite !filter_app.
  fold (digitsOnly a) (digitsOnly b) (digitsOnly (trim s)).
  rewrite (digitsOnly_spaces a Ha), (digitsOnly_spaces b Hb).
  now rewrite app_nil_r.
Qed.

End TrimFacts.

(** X2.  [validateEmail], [validatePhone] and [validateName] answer for a
    text what they answer for its trimmed form: white space around the
    text changes neither the verdict nor the message. *)
Theorem validators_ignore_padding :
  forall s : jsstring,
    validateEmail (trim s) = validateEmail s
    /\ validatePhone (trim s) = validatePhone s
    /\ validateName (trim s) = validateName s.
Proof.
  intros s. refine (conj _ (conj _ _)).
  - unfold validateEmail. now rewrite trim_idem.
  - unfold validatePhone. now rewrite trim_idem, digitsOnly_trim.
  - unfold validateName. now rewrite trim_idem.
Qed.

(* ================================================================== *)
(** * The name and the department validators *)
(* ================================================================== *)

Section NameFacts.

Lemma space_name_class (c : N) : is_space c = true -> name_class c = true.
Proof.
  intros H. unfold name_class. rewrite H. now rewrite orb_true_r.
Qed.

Lemma test_nameRegex (t : jsstring) :
  t <> [] -> test nameRegex t = forallb name_class t.
Proof.
  intros Hne. destruct (forallb name_class t) eqn:E.
  - apply test_spec. unfold nameRegex. apply lang_plus_class. now split.
  - destruct (test nameRegex t) eqn:T; [|reflexivity].
    apply test_spec in T. unfold nameRegex in T.
    apply lang_plus_class in T as [_ T]. congruence.
Qed.

Lemma validateName_checked (name : jsstring) :
  (2 <= List.length (trim name))%nat ->
  validateName name
  = mkResult (forallb name_class name)
      (if forallb name_class name then js ""
       else js "Name can only contain letters, spaces, hyphens, and apostrophes").
Proof.
  intros Hlen. unfold validateName.
  assert (Hne : trim name <> []).
  { intros E. rewrite E in Hlen. simpl in Hlen. lia. }
  rewrite (proj2 (truthy_true _) Hne). simpl negb. cbv iota zeta.
  rewrite (proj2 (Nat.ltb_ge _ _) Hlen).
  rewrite test_nameRegex by assumption.
  now rewrite (forallb_trim name_class name space_name_class).
Qed.

Lemma validDepartments_filled (d : jsstring) :
  In d validDepartments -> truthy (trim d) = true.
Proof.
  unfold validDepartments. simpl.
  intros H. repeat (destruct H as [<-|H]; [vm_compute; reflexivity|]).
  contradiction.
Qed.

Lemma existsb_str_eqb (d : jsstring) (l : list jsstring) :
  existsb (str_eqb d) l = true <-> In d l.
Proof.
  rewrite existsb_exists. split.
  - intros [x [Hx E]]. apply str_eqb_eq in E. now subst.
  - intros H. exists d. split; [exact H | apply str_eqb_refl].
Qed.

End NameFacts.

(** X3.  [validateName]: a blank text is "Name is required"; a text whose
    trimmed form has one character is "Name must be at least 2 characters
    long"; any other text is valid exactly when each of its characters,
    the white space at its ends included, is a letter of a-z or A-Z, white
    space, a hyphen, an apostrophe or a dot, and gets the character message
    when not. *)
Theorem validateName_rule :
  forall name : jsstring,
    (trim name = [] ->
       validateName name = mkResult false (js "Name is required"))
    /\ (List.length (trim name) = 1%nat ->
          validateName name
          = mkResult false (js "Name must be at least 2 characters long"))
    /\ ((2 <= List.length (trim name))%nat ->
          (isValid (validateName name) = true
           <-> forallb name_class name = true)
          /\ (isValid (validateName name) = false ->
                message (validateName name)
                = js "Name can only contain letters, spaces, hyphens, and apostrophes")).
Proof.
  intros name. refine (conj _ (conj _ _)).
  - unfold validateName. intros ->. reflexivity.
  - intros Hlen. unfold validateName.
    destruct (trim name) as [|c t] eqn:E; [discriminate|].
    simpl. destruct t; [reflexivity | discriminate].
  - intros Hlen. rewrite (validateName_checked name Hlen).
    destruct (forallb name_class name); simpl; split;
      try tauto; try discriminate; reflexivity.
Qed.

Lemma validateName_rule_witness :
  (2 <= List.length (trim (js " Jean-Luc Picard ")))%nat
  /\ isValid (validateName (js " Jean-Luc Picard ")) = true.
Proof.
  assert (H : (2 <= List.length (trim (js " Jean-Luc Picard ")))%nat)
    by (vm_compute; lia).
  split; [exact H|].
  apply (proj2 (proj2 (validateName_rule (js " Jean-Luc Picard "))) H).
  vm_compute. reflexivity.
Defined.

(** X4.  [validateDepartment] answers valid exactly for the nine department
    names, compared as they are written: a name with white space around it
    is not blank, and is refused with "Please select a valid department". *)
Theorem validateDepartment_membership :
  forall department : jsstring,
    (isValid (validateDepartment department) = true
     <-> In department validDepartments)
    /\ (trim department = [] ->
          validateDepartment department
          = mkResult false (js "Department is required"))
    /\ (trim department <> [] -> ~ In department validDepartments ->
          validateDepartment department
          = mkResult false (js "Please select a valid department")).
Proof.
  intros d. refine (conj _ (conj _ _)).
  - unfold validateDepartment. split.
    + destruct (negb (truthy (trim d))); cbn [isValid]; [discriminate|].
      apply existsb_str_eqb.
    + intros H. rewrite (validDepartments_filled d H).
      cbn [negb isValid]. now apply existsb_str_eqb.
  - unfold validateDepartment. intros ->. reflexivity.
  - intros Hne Hout. unfold validateDepartment.
    rewrite (proj2 (truthy_true _) Hne). simpl negb. cbv iota zeta.
    destruct (existsb (str_eqb d) validDepartments) eqn:E; [|reflexivity].
    apply existsb_str_eqb in E. contradiction.
Qed.

Lemma validateDepartment_membership_witness :
  trim (js " Sales") <> []
  /\ validateDepartment (js " Sales")
     = mkResult false (js "Please select a valid department").
Proof.
  assert (H : trim (js " Sales") <> []) by (vm_compute; discriminate).
  split; [exact H|].
  apply (proj2 (proj2 (validateDepartment_membership (js " Sales"))) H).
  vm_compute. intuition discriminate.
Defined.

(* ================================================================== *)
(** * The form aggregator, on any draft and any mapping *)
(* ================================================================== *)

Section AggregatorFacts.

Lemma validateEmployeeForm_entries (formData : object jsstring) :
  validateEmployeeForm formData
  = [ ("name"%string, validateName (field_or_empty formData "name"));
      ("email"%string, validateEmail (field_or_empty formData "email"));
      ("phone"%string, validatePhone (field_or_empty formData "phone"));
      ("department"%string,
       validateDepartment (field_or_empty formData "department")) ].
Proof. reflexivity. Qed.

Lemma field_or_empty_asObject (f : Field) (d : EmployeeFormData.t) :
  field_or_empty (asObject d) (fieldKey f) = fieldOf f d.
Proof.
  destruct d as [n e p dep].
  destruct f; unfold field_or_empty; simpl;
    match goal with |- (if truthy ?v then _ else _) = _ => destruct v end;
    reflexivity.
Qed.

Lemma get_validateEmployeeForm (f : Field) (d : EmployeeFormData.t) :
  get (validateEmployeeForm (asObject d)) (fieldKey f)
  = Some (validatorOf f (fieldOf f d)).
Proof.
  rewrite validateEmployeeForm_entries.
  rewrite <- (field_or_empty_asObject f d).
  destruct f; reflexivity.
Qed.

Lemma isFormValid_fields (d : EmployeeFormData.t) :
  isFormValid (validateEmployeeForm (asObject d)) = true
  <-> forall f, isValid (validatorOf f (fieldOf f d)) = true.
Proof.
  rewrite validateEmployeeForm_entries. unfold isFormValid, values.
  cbn [map snd forallb].
  pose proof (field_or_empty_asObject F_name d) as En.
  pose proof (field_or_empty_asObject F_email d) as Ee.
  pose proof (field_or_empty_asObject F_phone d) as Ep.
  pose proof (field_or_empty_asObject F_department d) as Ed.
  cbn [fieldKey] in En, Ee, Ep, Ed. rewrite En, Ee, Ep, Ed.
  change validateName with (validatorOf F_name).
  change validateEmail with (validatorOf F_email).
  change validatePhone with (validatorOf F_phone).
  change validateDepartment with (validatorOf F_department).
  rewrite !andb_true_iff. split.
  - intros [Hn [He [Hp [Hd _]]]] f. destruct f; assumption.
  - intros H. repeat split.
    + apply (H F_name).
    + apply (H F_email).
    + apply (H F_phone).
    + apply (H F_department).
Qed.

Lemma first_invalid (l : list ValidationResult) :
  (forallb isValid l = true
   /\ find (fun error => negb (isValid error)) l = None)
  \/ (exists before r after,
        l = before ++ r :: after
        /\ forallb isValid before = true
        /\ isValid r = false
        /\ forallb isValid l = false
        /\ find (fun error => negb (isValid error)) l = Some r).
Proof.
  induction l as [|r l IH]; simpl.
  - left. now split.
  - destruct (isValid r) eqn:Hr; simpl.
    + destruct IH as [[Hall Hf]|[b [r' [a [E [Hb [Hr' [Hall Hf]]]]]]]].
      * left. now split.
      * right. exists (r :: b), r', a. simpl. rewrite Hr, Hb.
        repeat split; congruence.
    + right. exists [], r, l. now repeat split.
Qed.

End AggregatorFacts.

(** X5.  Whatever keys the draft has, [validateEmployeeForm] returns the
    four entries name, email, phone, department, in this order; the mapping
    is valid exactly when the four validators accept the fields, a missing
    field read as the empty text; and on such a mapping
    [getFirstErrorMessage] is empty exactly when the mapping is valid. *)
Theorem validateEmployeeForm_aggregate :
  forall formData : object jsstring,
    let errors := validateEmployeeForm formData in
    map fst errors = ["name"; "email"; "phone"; "department"]%string
    /\ (isFormValid errors = true
        <-> isValid (validateName (field_or_empty formData "name")) = true
            /\ isValid (validateEmail (field_or_empty formData "email")) = true
            /\ isValid (validatePhone (field_or_empty formData "phone")) = true
            /\ isValid (validateDepartment
                          (field_or_empty formData "department")) = true)
    /\ (getFirstErrorMessage errors = [] <-> isFormValid errors = true).
Proof.
  intros fd errors. unfold errors. rewrite validateEmployeeForm_entries.
  pose proof (validateName_coherent (field_or_empty fd "name")) as Cn.
  pose proof (validateEmail_coherent (field_or_empty fd "email")) as Ce.
  pose proof (validatePhone_coherent (field_or_empty fd "phone")) as Cp.
  pose proof (validateDepartment_coherent (field_or_empty fd "department")) as Cd.
  unfold isFormValid, getFirstErrorMessage. simpl.
  destruct (validateName (field_or_empty fd "name")) as [vn mn].
  destruct (validateEmail (field_or_empty fd "email")) as [ve me].
  destruct (validatePhone (field_or_empty fd "phone")) as [vp mp].
  destruct (validateDepartment (field_or_empty fd "department")) as [vd md].
  simpl in *.
  refine (conj eq_refl (conj _ _)).
  - rewrite !andb_true_iff. tauto.
  - destruct vn, ve, vp, vd; simpl; tauto.
Qed.

(** X6.  On any mapping, [isFormValid] is true and [getFirstErrorMessage]
    is empty when no entry is invalid; otherwise [isFormValid] is false and
    [getFirstErrorMessage] is the message of the first invalid entry in the
    order of the entries. *)
Theorem getFirstErrorMessage_first_invalid :
  forall errors : object ValidationResult,
    (forallb isValid (values errors) = true
     /\ isFormValid errors = true
     /\ getFirstErrorMessage errors = [])
    \/ (exists before r after,
          values errors = before ++ r :: after
          /\ forallb isValid before = true
          /\ isValid r = false
          /\ isFormValid errors = false
          /\ getFirstErrorMessage errors = message r).
Proof.
  intros errors. unfold isFormValid, getFirstErrorMessage.
  destruct (first_invalid (values errors))
    as [[Hall Hf]|[b [r [a [E [Hb [Hr [Hall Hf]]]]]]]].
  - left. rewrite Hf. now repeat split.
  - right. exists b, r, a. rewrite Hf. now repeat split.
Qed.

(* ================================================================== *)
(** * The form component *)
(* ================================================================== *)

Section FormFacts.

(** The errors are those of the current form data once a field is touched
    or a submit was tried, and there are none before. *)
Let synced (st : FormState) : Prop :=
  (errors st = [] /\ touched st = [] /\ submitAttempted st = false)
  \/ ((submitAttempted st = true \/ touched st <> [])
      /\ errors st = validateEmployeeForm (asObject (formData st))).

Lemma set_filled (V : Type) (o : object V) (k : string) (v : V) :
  Validation.set o k v <> [].
Proof.
  destruct o as [|[k' v'] o]; simpl; [discriminate|].
  destruct (String.eqb k' k); discriminate.
Qed.

Lemma revalidate_synced (st : FormState) :
  (submitAttempted st = true \/ touched st <> []
   \/ (errors st = [] /\ touched st = [] /\ submitAttempted st = false)) ->
  synced (revalidate st).
Proof.
  intros H. unfold revalidate.
  destruct (submitAttempted st) eqn:Es; simpl.
  - right. simpl. split; [now left | reflexivity].
  - destruct (touched st) as [|x t] eqn:Et; simpl.
    + left. destruct H as [H|[H|[H _]]];
        [congruence | congruence | now repeat split].
    + right. simpl. split; [right; discriminate | reflexivity].
Qed.

Lemma step_synced (i : input) (st : FormState) :
  synced st -> synced (step i st).
Proof.
  intros Hst. destruct i as [f value|f|]; simpl.
  - unfold handleInputChange. apply revalidate_synced. simpl.
    destruct (truthy (trim value) || isTouched f st).
    + right. left. apply set_filled.
    + destruct Hst as [[He [Ht Hs]]|[[Hs|Ht] _]].
      * right. right. now repeat split.
      * now left.
      * right. now left.
  - unfold handleInputBlur. apply revalidate_synced. simpl.
    right. left. apply set_filled.
  - right. simpl. split; [now left | reflexivity].
Qed.

Lemma steps_synced (l : list input) :
  forall st, synced st -> synced (steps l st).
Proof.
  induction l as [|i l IH]; simpl; intros st Hst; [exact Hst|].
  apply IH. now apply step_synced.
Qed.

Lemma synced_getFieldError (f : Field) (st : FormState) :
  synced st -> getFieldError f st <> [] ->
  getFieldError f st = message (validatorOf f (fieldOf f (formData st)))
  /\ isValid (validatorOf f (fieldOf f (formData st))) = false.
Proof.
  intros Hst Hne. unfold getFieldError, notValid in *.
  destruct Hst as [[He _]|[_ He]]; rewrite He in *.
  - exfalso. apply Hne. simpl.
    destruct (isTouched f st || submitAttempted st); reflexivity.
  - rewrite get_validateEmployeeForm in *.
    destruct ((isTouched f st || submitAttempted st)
              && negb (isValid (validatorOf f (fieldOf f (formData st)))))
      eqn:E.
    + apply andb_true_iff in E as [_ E]. apply negb_true_iff in E.
      now split.
    + exfalso. apply Hne. reflexivity.
Qed.

End FormFacts.

(** X7.  [handleSubmit] calls [onSave] only with form data whose four
    fields the validators accept, and calls it whenever they do; when it
    does not call, some field is invalid, its message is shown under the
    field, and the submit button is disabled. *)
Theorem handleSubmit_gate :
  forall st : FormState,
    let st' := fst (handleSubmit st) in
    (snd (handleSubmit st) = Some (formData st)
     /\ forall f, isValid (validatorOf f (fieldOf f (formData st))) = true)
    \/ (snd (handleSubmit st) = None
        /\ isSubmitDisabled false st' = true
        /\ exists f,
             isValid (validatorOf f (fieldOf f (formData st))) = false
             /\ getFieldError f st'
                = message (validatorOf f (fieldOf f (formData st)))
             /\ getFieldError f st' <> []).
Proof.
  intros st st'. unfold st', handleSubmit. cbn [fst snd].
  destruct (isFormValid (validateEmployeeForm (asObject (formData st)))) eqn:E.
  - left. split; [reflexivity|]. now apply isFormValid_fields.
  - right. split; [reflexivity|]. split.
    + unfold isSubmitDisabled. simpl. now rewrite E.
    + assert (H : exists f,
                 isValid (validatorOf f (fieldOf f (formData st))) = false).
      { destruct (isValid (validatorOf F_name (fieldOf F_name (formData st))))
          eqn:Hn; [|now exists F_name].
        destruct (isValid (validatorOf F_email (fieldOf F_email (formData st))))
          eqn:He; [|now exists F_email].
        destruct (isValid (validatorOf F_phone (fieldOf F_phone (formData st))))
          eqn:Hp; [|now exists F_phone].
        destruct (isValid (validatorOf F_department
                             (fieldOf F_department (formData st))))
          eqn:Hd; [|now exists F_department].
        exfalso. assert (T : isFormValid
                               (validateEmployeeForm (asObject (formData st)))
                             = true).
        { apply isFormValid_fields. intros f. destruct f; assumption. }
        congruence. }
      destruct H as [f Hf]. exists f. split; [exact Hf|].
      assert (G : getFieldError f
                    (mkForm (formData st)
                       (validateEmployeeForm (asObject (formData st)))
                       (map (fun f0 => (fieldKey f0, true)) fields) true)
                  = message (validatorOf f (fieldOf f (formData st)))).
      { unfold getFieldError, notValid. cbn [errors submitAttempted].
        rewrite get_validateEmployeeForm, Hf, orb_true_r. reflexivity. }
      split; [exact G|]. rewrite G. intros M.
      apply (validatorOf_coherent f) in M. congruence.
Qed.

(** X8.  From the form as it opens, through any changes, blurs and
    submits, each taken with the validation effect that follows it: an
    error message shown under a field is the message the validator of that
    field gives for what the field holds now, and that content is invalid.
    No message is shown on the form as it opens. *)
Theorem form_errors_current :
  forall (employee : option Employee.t) (inputs : list input) (f : Field),
    let st := steps inputs (opened employee) in
    getFieldError f (opened employee) = []
    /\ (getFieldError f st = []
        \/ (getFieldError f st
            = message (validatorOf f (fieldOf f (formData st)))
            /\ isValid (validatorOf f (fieldOf f (formData st))) = false)).
Proof.
  intros employee inputs f st. split.
  - unfold getFieldError, opened, isTouched, notValid. simpl. reflexivity.
  - assert (Hs : (errors st = [] /\ touched st = []
                  /\ submitAttempted st = false)
                 \/ ((submitAttempted st = true \/ touched st <> [])
                     /\ errors st
                        = validateEmployeeForm (asObject (formData st)))).
    { apply steps_synced. left. now repeat split. }
    destruct (getFieldError f st) as [|c m] eqn:E; [now left|].
    right. rewrite <- E. apply synced_getFieldError; [exact Hs|].
    rewrite E. discriminate.
Qed.

(* ================================================================== *)
(** * The order of strings *)
(* ================================================================== *)

Section StringOrder.

Lemma str_ltb_irrefl (a : jsstring) : str_ltb a a = false.
Proof.
  induction a as [|x a IH]; simpl; [reflexivity|].
  now rewrite N.ltb_irrefl.
Qed.

Lemma str_ltb_asym (a b : jsstring) :
  str_ltb a b = true -> str_ltb b a = false.
Proof.
  revert b; induction a as [|x a IH]; intros [|y b]; simpl; try congruence.
  destruct (N.ltb_spec x y) as [Hxy|Hxy].
  - intros _. destruct (N.ltb_spec y x); [lia | reflexivity].
  - destruct (N.ltb_spec y x) as [Hyx|Hyx]; [discriminate|]. apply IH.
Qed.

Lemma str_ltb_trans (a b c : jsstring) :
  str_ltb a b = true -> str_ltb b c = true -> str_ltb a c = true.
Proof.
  revert b c; induction a as [|x a IH]; intros [|y b] [|z c]; simpl;
    try congruence.
  destruct (N.ltb_spec x y) as [Hxy|Hxy].
  - intros _. destruct (N.ltb_spec y z) as [Hyz|Hyz].
    + intros _. destruct (N.ltb_spec x z); [reflexivity | lia].
    + destruct (N.ltb_spec z y); [discriminate|]. intros _.
      destruct (N.ltb_spec x z); [reflexivity | lia].
  - destruct (N.ltb_spec y x) as [Hyx|Hyx]; [discriminate|].
    assert (x = y) by lia. subst y. intros Hab.
    destruct (N.ltb_spec x z) as [Hxz|Hxz]; [reflexivity|].
    destruct (N.ltb_spec z x); [discriminate|]. now apply IH.
Qed.

Lemma str_ltb_connex (a b : jsstring) :
  str_ltb a b = false -> str_ltb b a = false -> a = b.
Proof.
  revert b; induction a as [|x a IH]; intros [|y b]; simpl; try congruence.
  destruct (N.ltb_spec x y) as [Hxy|Hxy]; [discriminate|].
  destruct (N.ltb_spec y x) as [Hyx|Hyx]; [discriminate|].
  intros H1 H2. assert (x = y) by lia. subst y. f_equal. now apply IH.
Qed.

(** "Not after" is transitive. *)
Lemma str_le_trans (a b c : jsstring) :
  str_ltb b a = false -> str_ltb c b = false -> str_ltb c a = false.
Proof.
  intros Hab Hbc. destruct (str_ltb c a) eqn:Hca; [|reflexivity].
  destruct (str_ltb a b) eqn:Hlt.
  - rewrite (str_ltb_trans c a b Hca Hlt) in Hbc. discriminate.
  - assert (a = b) by now apply str_ltb_connex. subst b. congruence.
Qed.

End StringOrder.

(* ================================================================== *)
(** * The sort stage *)
(* ================================================================== *)

Section StableSort.
Variable A : Type.
Variable compareFn : A -> A -> Z.
Variable p : A -> bool.

Lemma insert_filter_out (x : A) (l : list A) :
  p x = false -> filter p (insert compareFn x l) = filter p l.
Proof.
  intros Hx. induction l as [|y l IH]; simpl.
  - now rewrite Hx.
  - destruct (compareFn x y <=? 0)%Z; simpl.
    + now rewrite Hx.
    + now rewrite IH.
Qed.

Lemma insert_filter_in (x : A) (l : list A) :
  p x = true ->
  (forall y, p y = true -> (compareFn x y <= 0)%Z) ->
  filter p (insert compareFn x l) = x :: filter p l.
Proof.
  intros Hx Hle. induction l as [|y l IH]; simpl.
  - now rewrite Hx.
  - destruct (compareFn x y <=? 0)%Z eqn:E; simpl.
    + now rewrite Hx.
    + rewrite IH. destruct (p y) eqn:Hy; [|reflexivity].
      specialize (Hle y Hy). apply Z.leb_gt in E. lia.
Qed.

(** The elements of a class whose members do not come after one another
    keep their order through the sort. *)
Lemma sort_stable (l : list A) :
  (forall x y, p x = true -> p y = true -> (compareFn x y <= 0)%Z) ->
  filter p (sort compareFn l) = filter p l.
Proof.
  intros Hle. induction l as [|x l IH]; simpl; [reflexivity|].
  destruct (p x) eqn:Hx.
  - rewrite insert_filter_in; [now rewrite IH | exact Hx |].
    intros y Hy. now apply Hle.
  - rewrite insert_filter_out by exact Hx. exact IH.
Qed.

End StableSort.

Section SortStage.
Variable toLowerCase : jsstring -> jsstring.

Lemma compareEmployees_total (cfg : SortConfig) (a b : Employee.t) :
  (0 < compareEmployees toLowerCase cfg a b)%Z ->
  (compareEmployees toLowerCase cfg b a <= 0)%Z.
Proof.
  unfold compareEmployees. destruct cfg as [k d]. simpl.
  destruct k, d; try lia;
    match goal with
    | |- context [str_ltb ?x ?y] =>
        destruct (str_ltb x y) eqn:E1; destruct (str_ltb y x) eqn:E2
    end; cbv iota;
    try (rewrite (str_ltb_asym _ _ E1) in E2; discriminate); lia.
Qed.

Lemma compareEmployees_inOrder (cfg : SortConfig) (a b : Employee.t) :
  (compareEmployees toLowerCase cfg a b <= 0)%Z -> inOrder toLowerCase cfg a b.
Proof.
  unfold compareEmployees, inOrder, textKey. destruct cfg as [k d]. simpl.
  destruct k, d; try lia;
    match goal with
    | |- context [if str_ltb ?x ?y then _ else _] =>
        destruct (str_ltb x y) eqn:E1; destruct (str_ltb y x) eqn:E2
    end; cbv iota; intros H; try lia; try reflexivity;
    try (rewrite (str_ltb_asym _ _ E1) in E2; discriminate);
    try (rewrite (str_ltb_asym _ _ E2) in E1; discriminate).
Qed.

Lemma inOrder_trans (cfg : SortConfig) (a b c : Employee.t) :
  inOrder toLowerCase cfg a b -> inOrder toLowerCase cfg b c ->
  inOrder toLowerCase cfg a c.
Proof.
  unfold inOrder. destruct cfg as [k d]. simpl.
  destruct k, d; try lia; intros H1 H2;
    solve [ eapply str_le_trans; eassumption ].
Qed.

Lemma compareEmployees_tied (cfg : SortConfig) (a x y : Employee.t) :
  tied toLowerCase cfg a x = true -> tied toLowerCase cfg a y = true ->
  (compareEmployees toLowerCase cfg x y <= 0)%Z.
Proof.
  unfold tied, compareEmployees, textKey. destruct cfg as [k d]. simpl.
  destruct k; intros Hx Hy;
    try (apply Z.eqb_eq in Hx; apply Z.eqb_eq in Hy; destruct d; lia);
    apply str_eqb_eq in Hx; apply str_eqb_eq in Hy;
    rewrite <- Hx, <- Hy, str_ltb_irrefl; lia.
Qed.

Lemma sortedEmployees_perm (l : list Employee.t) (cfg : option SortConfig) :
  Permutation (sortedEmployees toLowerCase l cfg) l.
Proof.
  destruct cfg as [cfg|]; simpl; [apply sort_perm | apply Permutation_refl].
Qed.

End SortStage.

(** X9.  Whatever the sort configuration, the sorted stage is a
    rearrangement of its input: no record is lost, none is duplicated, the
    number of records and therefore the number of pages are those of the
    input. *)
Theorem sortedEmployees_rearranges :
  forall (toLowerCase : jsstring -> jsstring) (l : list Employee.t)
         (cfg : option SortConfig) (size : Z),
    Permutation (sortedEmployees toLowerCase l cfg) l
    /\ List.length (sortedEmployees toLowerCase l cfg) = List.length l
    /\ (forall e, In e (sortedEmployees toLowerCase l cfg) <-> In e l)
    /\ totalPages (sortedEmployees toLowerCase l cfg) size = totalPages l size.
Proof.
  intros toLowerCase l cfg size.
  pose proof (sortedEmployees_perm toLowerCase l cfg) as P.
  assert (L : List.length (sortedEmployees toLowerCase l cfg) = List.length l)
    by now apply Permutation_length.
  refine (conj P (conj L (conj _ _))).
  - intros e. split; apply Permutation_in;
      [exact P | now apply Permutation_sym].
  - unfold totalPages. now rewrite L.
Qed.

(** X10.  With a sort configuration, every record of the sorted stage is
    in order with every record after it: by increasing or decreasing
    identifier on the identifier column, and on any other column by the
    code units of the lower-cased text, ascending or descending. *)
Theorem sortedEmployees_ordered :
  forall (toLowerCase : jsstring -> jsstring) (l : list Employee.t)
         (cfg : SortConfig),
    StronglySorted (inOrder toLowerCase cfg)
      (sortedEmployees toLowerCase l (Some cfg)).
Proof.
  intros toLowerCase l cfg. simpl.
  apply Sorted_StronglySorted.
  - intros a b c. apply inOrder_trans.
  - pose proof (@sort_Sorted _ (compareEmployees toLowerCase cfg)
                  (compareEmployees_total toLowerCase cfg) l) as H.
    induction H as [|x s Hs IH Hd]; constructor; [exact IH|].
    destruct Hd; constructor. now apply compareEmployees_inOrder.
Qed.

(** X11.  The sort is stable: the records that have the sort key of a
    given record stand in the sorted stage in the order they have in its
    input. *)
Theorem sortedEmployees_stable :
  forall (toLowerCase : jsstring -> jsstring) (l : list Employee.t)
         (cfg : SortConfig) (a : Employee.t),
    filter (tied toLowerCase cfg a) (sortedEmployees toLowerCase l (Some cfg))
    = filter (tied toLowerCase cfg a) l.
Proof.
  intros toLowerCase l cfg a. simpl. apply sort_stable.
  intros x y. apply compareEmployees_tied.
Qed.

(* ================================================================== *)
(** * The department filter's options *)
(* ================================================================== *)

Section Departments.

Lemma distinct_In (xs : list jsstring) :
  forall seen x, In x (distinct seen xs) <-> In x xs /\ ~ In x seen.
Proof.
  induction xs as [|y xs IH]; intros seen x; simpl.
  - tauto.
  - destruct (existsb (str_eqb y) seen) eqn:E.
    + apply existsb_str_eqb in E. rewrite IH. split.
      * intros [H1 H2]. tauto.
      * intros [[->|H1] H2]; [contradiction | tauto].
    + assert (Hy : ~ In y seen).
      { intros H. apply existsb_str_eqb in H. congruence. }
      simpl. rewrite IH. simpl. split.
      * intros [->|[H1 H2]]; [tauto|]. split; [tauto|]. intros H. apply H2. tauto.
      * intros [[->|H1] H2]; [tauto|].
        destruct (list_eq_dec N.eq_dec y x) as [->|Hne]; [tauto|].
        right. split; [exact H1|]. intros [H|H]; [congruence | contradiction].
Qed.

Lemma distinct_NoDup (xs : list jsstring) :
  forall seen, NoDup (distinct seen xs).
Proof.
  induction xs as [|y xs IH]; intros seen; simpl.
  - constructor.
  - destruct (existsb (str_eqb y) seen); [apply IH|].
    constructor; [|apply IH]. rewrite distinct_In. simpl. tauto.
Qed.

Lemma defaultCompare_total (a b : jsstring) :
  (0 < defaultCompare a b)%Z -> (defaultCompare b a <= 0)%Z.
Proof.
  unfold defaultCompare.
  destruct (str_ltb a b) eqn:E1; destruct (str_ltb b a) eqn:E2; lia.
Qed.

Lemma defaultCompare_le (a b : jsstring) :
  (defaultCompare a b <= 0)%Z -> str_ltb b a = false.
Proof.
  unfold defaultCompare.
  destruct (str_ltb a b) eqn:E1.
  - intros _. now apply str_ltb_asym.
  - destruct (str_ltb b a); [lia | reflexivity].
Qed.

Lemma strictly_sorted (l : list jsstring) :
  NoDup l ->
  StronglySorted (fun a b => str_ltb b a = false) l ->
  StronglySorted strLt l.
Proof.
  intros Hn Hs. induction Hs as [|x l Hs IH Hx]; constructor.
  - apply IH. now inversion Hn.
  - inversion Hn as [|? ? Hout _]; subst.
    rewrite Forall_forall in *. intros y Hy. unfold strLt.
    destruct (str_ltb x y) eqn:E; [reflexivity|].
    exfalso. apply Hout.
    rewrite (str_ltb_connex x y E (Hx y Hy)). exact Hy.
Qed.

Lemma availableDepartments_perm (l : list Employee.t) :
  Permutation (availableDepartments l) (distinct [] (map departmentOf l)).
Proof. unfold availableDepartments. apply sort_perm. Qed.

Lemma availableDepartments_In (l : list Employee.t) (d : jsstring) :
  In d (availableDepartments l) <-> exists e, In e l /\ departmentOf e = d.
Proof.
  split.
  - intros H. apply (Permutation_in _ (availableDepartments_perm l)) in H.
    apply distinct_In in H as [H _]. apply in_map_iff in H as [e [E He]].
    now exists e.
  - intros [e [He E]].
    apply (Permutation_in _ (Permutation_sym (availableDepartments_perm l))).
    apply distinct_In. split; [|tauto]. apply in_map_iff. now exists e.
Qed.

End Departments.

(** X12.  The options of the department filter are the departments of the
    records, each one once, in increasing order of code units. *)
Theorem availableDepartments_sorted_set :
  forall l : list Employee.t,
    StronglySorted strLt (availableDepartments l)
    /\ NoDup (availableDepartments l)
    /\ (forall d, In d (availableDepartments l)
                  <-> exists e, In e l /\ departmentOf e = d).
Proof.
  intros l.
  assert (Hn : NoDup (availableDepartments l)).
  { apply (Permutation_NoDup (Permutation_sym (availableDepartments_perm l))).
    apply distinct_NoDup. }
  refine (conj _ (conj Hn (availableDepartments_In l))).
  apply strictly_sorted; [exact Hn|].
  apply Sorted_StronglySorted.
  - intros a b c. apply str_le_trans.
  - unfold availableDepartments.
    pose proof (@sort_Sorted _ defaultCompare defaultCompare_total
                  (distinct [] (map (fun emp => Company.name (Employee.company emp)) l)))
      as H.
    induction H as [|x s Hs IH Hd]; constructor; [exact IH|].
    destruct Hd; constructor. now apply defaultCompare_le.
Qed.

(** X13.  A non-empty option of the department filter, chosen with an
    empty search term, keeps at least one record, and keeps exactly the
    records of that department. *)
Theorem department_option_selects :
  forall (toLowerCase : jsstring -> jsstring) (l : list Employee.t)
         (d : jsstring),
    In d (availableDepartments l) ->
    d <> [] ->
    filteredEmployees toLowerCase l [] d <> []
    /\ (forall e, In e (filteredEmployees toLowerCase l [] d)
                  <-> In e l /\ departmentOf e = d).
Proof.
  intros toLowerCase l d Hd Hne.
  assert (E : filteredEmployees toLowerCase l [] d
              = filter (fun e => str_eqb (departmentOf e) d) l).
  { unfold filteredEmployees. simpl.
    now rewrite (proj2 (truthy_true d) Hne). }
  assert (Hin : forall e, In e (filteredEmployees toLowerCase l [] d)
                          <-> In e l /\ departmentOf e = d).
  { intros e. rewrite E, filter_In, str_eqb_eq. tauto. }
  split; [|exact Hin].
  apply availableDepartments_In in Hd as [e He].
  apply Hin in He. intros Hnil. rewrite Hnil in He. contradiction.
Qed.

Lemma department_option_selects_witness :
  In (js "Sales") (availableDepartments mockEmployees)
  /\ filteredEmployees asciiLowerCase mockEmployees [] (js "Sales") <> [].
Proof.
  assert (H : In (js "Sales") (availableDepartments mockEmployees))
    by (vm_compute; tauto).
  split; [exact H|].
  apply (department_option_selects asciiLowerCase mockEmployees (js "Sales") H).
  vm_compute. discriminate.
Defined.

(* ================================================================== *)
(** * The pages *)
(* ================================================================== *)

Section Pages.

Lemma paginatedEmployees_length (l : list Employee.t) (p s : Z) :
  (0 < s)%Z -> (1 <= p)%Z ->
  Z.of_nat (List.length (paginatedEmployees l p s))
  = Z.max 0 (Z.min s (Z.of_nat (List.length l) - (p - 1) * s)).
Proof.
  intros Hs Hp. rewrite (@paginatedEmployees_slice l p s Hs Hp).
  rewrite length_firstn, length_skipn.
  assert (0 <= (p - 1) * s)%Z by nia. lia.
Qed.

Lemma page_filled (l : list Employee.t) (p s : Z) :
  (0 < s)%Z -> (1 <= p <= totalPages l s)%Z ->
  paginatedEmployees l p s <> [].
Proof.
  intros Hs [Hp Ht] E.
  pose proof (paginatedEmployees_length l p s Hs Hp) as L.
  rewrite E in L. simpl in L.
  pose proof (@Math_ceil_div_bounds (Z.of_nat (List.length l)) s Hs) as B.
  fold (totalPages l s) in B.
  assert ((p - 1) * s <= (totalPages l s - 1) * s)%Z by nia. lia.
Qed.

End Pages.

(** X14.  For a positive page size: every page before the last holds
    exactly the page size; the last page holds at least one record and the
    page size at most; every page after the last is empty.  So a page that
    [handlePageChange] accepts is never empty. *)
Theorem page_lengths :
  forall (l : list Employee.t) (p s : Z),
    (0 < s)%Z -> (1 <= p)%Z ->
    let t := totalPages l s in
    let len := Z.of_nat (List.length (paginatedEmployees l p s)) in
    ((p < t)%Z -> len = s)
    /\ (p = t -> (1 <= len <= s)%Z)
    /\ ((t < p)%Z -> paginatedEmployees l p s = [])
    /\ ((p <= t)%Z -> paginatedEmployees l p s <> []).
Proof.
  intros l p s Hs Hp t len.
  pose proof (paginatedEmployees_length l p s Hs Hp) as L. fold len in L.
  assert (B : ((t - 1) * s < Z.of_nat (List.length l) <= t * s)%Z)
    by (apply Math_ceil_div_bounds; assumption).
  refine (conj _ (conj _ (conj _ _))).
  - intros Hlt. assert (p * s <= (t - 1) * s)%Z by nia. lia.
  - intros ->. lia.
  - intros Hgt. assert (t * s <= (p - 1) * s)%Z by nia.
    assert (len = 0%Z) by lia.
    destruct (paginatedEmployees l p s); [reflexivity|].
    unfold len in *. simpl in *. lia.
  - intros Hle. apply page_filled; [assumption|]. fold t. lia.
Qed.

Lemma page_lengths_witness :
  (0 < 2)%Z /\ (1 <= 2)%Z
  /\ paginatedEmployees mockEmployees 2 2 <> [].
Proof.
  split; [reflexivity|]. split; [discriminate|].
  apply (page_lengths mockEmployees 2 2).
  - reflexivity.
  - discriminate.
  - vm_compute. discriminate.
Defined.

(* ================================================================== *)
(** * The controls of the view *)
(* ================================================================== *)

Section ViewFacts.
Variable toLowerCase : jsstring -> jsstring.

Lemma onPage_first (s : State) (p : Z) :
  (0 < p)%Z -> p = pageSize s -> currentPage s = 1%Z -> onPage toLowerCase s.
Proof. intros Hp -> Hc. split; [exact Hp | now left]. Qed.

Lemma act_onPage (a : action) (s : State) :
  offered a -> onPage toLowerCase s -> onPage toLowerCase (act toLowerCase a s).
Proof.
  intros Ha [Hsize Hpage]. destruct a as [t|d|k|p|n|]; simpl.
  - unfold searchChange. destruct (str_eqb t (searchTerm s)).
    + now split.
    + split; [exact Hsize | now left].
  - unfold departmentChange. destruct (str_eqb d (departmentFilter s)).
    + now split.
    + split; [exact Hsize | now left].
  - split; [exact Hsize | now left].
  - unfold handlePageChange.
    destruct ((p >=? 1) && (p <=? totalPagesOf toLowerCase s))%Z eqn:E.
    + apply andb_true_iff in E as [E1 E2].
      split; [exact Hsize|]. right.
      change (totalPagesOf toLowerCase (setCurrentPage p s))
        with (totalPagesOf toLowerCase s).
      simpl. lia.
    + now split.
  - simpl in Ha. split; [|now left]. simpl.
    destruct Ha as [<-|[<-|[<-|[<-|[]]]]]; reflexivity.
  - split; [exact Hsize | now left].
Qed.

Lemma acts_onPage (l : list action) :
  forall s, Forall offered l -> onPage toLowerCase s ->
            onPage toLowerCase (acts toLowerCase l s).
Proof.
  induction l as [|a l IH]; simpl; intros s Hl Hs; [exact Hs|].
  inversion Hl; subst. apply IH; [assumption|]. now apply act_onPage.
Qed.

Lemma onPage_filled (s : State) :
  onPage toLowerCase s -> sortedOf toLowerCase s <> [] ->
  paginatedOf toLowerCase s <> [].
Proof.
  intros [Hsize Hpage] Hne. unfold paginatedOf.
  apply page_filled; [exact Hsize|].
  assert (1 <= totalPagesOf toLowerCase s)%Z.
  { unfold totalPagesOf.
    pose proof (@Math_ceil_div_bounds
                  (Z.of_nat (List.length (sortedOf toLowerCase s)))
                  (pageSize s) Hsize) as B.
    fold (totalPages (sortedOf toLowerCase s) (pageSize s)) in B.
    destruct (sortedOf toLowerCase s); [congruence|]. simpl List.length in B.
    nia. }
  unfold totalPagesOf in *. destruct Hpage as [->|Hpage]; lia.
Qed.

End ViewFacts.

(** X15.  From a state whose page size is positive and whose current page
    is 1 or within the page count, every sequence of the controls of the
    view (search, department, column header, page, offered page size, clear)
    ends in such a state; and in such a state the page shown holds at least
    one record whenever the sorted stage holds one. *)
Theorem view_controls_keep_a_page :
  forall (toLowerCase : jsstring -> jsstring) (s : State)
         (controls : list action),
    onPage toLowerCase s ->
    Forall offered controls ->
    let s' := acts toLowerCase controls s in
    onPage toLowerCase s'
    /\ employees s' = employees s
    /\ (sortedOf toLowerCase s' <> [] -> paginatedOf toLowerCase s' <> []).
Proof.
  intros toLowerCase s controls Hs Hc s'.
  assert (H : onPage toLowerCase s') by now apply acts_onPage.
  refine (conj H (conj _ (onPage_filled toLowerCase s' H))).
  unfold s'. clear. revert s.
  induction controls as [|a l IH]; intros s; simpl; [reflexivity|].
  rewrite IH. destruct a as [t|d|k|p|n|]; simpl; try reflexivity.
  - unfold searchChange. now destruct (str_eqb t (searchTerm s)).
  - unfold departmentChange. now destruct (str_eqb d (departmentFilter s)).
  - unfold handlePageChange.
    now destruct ((p >=? 1) && (p <=? totalPagesOf toLowerCase s))%Z.
Qed.

Lemma view_controls_keep_a_page_witness :
  onPage asciiLowerCase loaded
  /\ paginatedOf asciiLowerCase
       (acts asciiLowerCase
          [A_search (js "e"); A_sort K_name; A_pageSize 25; A_page 7; A_clear]
          loaded)
     <> [].
Proof.
  assert (H : onPage asciiLowerCase loaded) by (split; [reflexivity | now left]).
  split; [exact H|].
  apply (view_controls_keep_a_page asciiLowerCase loaded
           [A_search (js "e"); A_sort K_name; A_pageSize 25; A_page 7; A_clear] H).
  - constructor; [exact I|]. constructor; [exact I|].
    constructor; [simpl; tauto|]. constructor; [exact I|].
    constructor; [exact I|]. constructor.
  - vm_compute. discriminate.
Defined.

(** X16.  After [handleClearFilters] the sorted stage is the whole
    collection in its stored order, on page 1: for a positive page size the
    page shown is the first records of the collection, up to the page
    size. *)
Theorem handleClearFilters_shows_all :
  forall (toLowerCase : jsstring -> jsstring) (s : State),
    let s' := handleClearFilters s in
    sortedOf toLowerCase s' = employees s
    /\ currentPage s' = 1%Z
    /\ pageSize s' = pageSize s
    /\ ((0 < pageSize s)%Z ->
        paginatedOf toLowerCase s'
        = firstn (Z.to_nat (pageSize s)) (employees s)).
Proof.
  intros toLowerCase s s'.
  assert (E : sortedOf toLowerCase s' = employees s) by reflexivity.
  refine (conj E (conj eq_refl (conj eq_refl _))).
  intros Hs. unfold paginatedOf. rewrite E.
  change (currentPage s') with 1%Z. change (pageSize s') with (pageSize s).
  rewrite (@paginatedEmployees_slice (employees s) 1 (pageSize s) Hs); [|lia].
  reflexivity.
Qed.

Lemma handleClearFilters_shows_all_witness :
  (0 < pageSize loaded)%Z
  /\ paginatedOf asciiLowerCase (handleClearFilters loaded) = mockEmployees.
Proof.
  split; [reflexivity|].
  rewrite (proj2 (proj2 (proj2 (handleClearFilters_shows_all asciiLowerCase loaded))));
    reflexivity.
Defined.

(* ================================================================== *)
(** * The service *)
(* ================================================================== *)

Section ServiceFacts.

Lemma thrown_message (m : jsstring) (st : option Z) :
  ApiError.message (thrown m st) <> [].
Proof.
  unfold thrown. simpl. destruct m; simpl; discriminate.
Qed.

Lemma normalise_filled (e : Employee.t) : departmentOf (normalise e) <> [].
Proof.
  unfold departmentOf, normalise. simpl.
  destruct (Company.name (Employee.company e)); simpl; discriminate.
Qed.

Lemma normalise_fixed (e : Employee.t) :
  departmentOf e <> [] -> normalise e = e.
Proof.
  destruct e as [i n u m p w a [c cp b]]. unfold departmentOf, normalise.
  simpl. intros H. destruct c; [contradiction | reflexivity].
Qed.

Lemma replace_spaces_spaceless (s : jsstring) :
  forall b, spaceless (replace_spaces b s).
Proof.
  unfold spaceless. induction s as [|c s IH]; intros b; simpl; [reflexivity|].
  destruct (is_space c) eqn:Hc.
  - destruct b; simpl; [apply IH|]. rewrite IH. reflexivity.
  - simpl. rewrite Hc. simpl. apply IH.
Qed.

Lemma replace_spaces_fixed (s : jsstring) :
  spaceless s -> forall b, replace_spaces b s = s.
Proof.
  unfold spaceless. induction s as [|c s IH]; intros H b; simpl; [reflexivity|].
  simpl in H. apply andb_true_iff in H as [Hc Hs].
  apply negb_true_iff in Hc. rewrite Hc. f_equal. now apply IH.
Qed.

End ServiceFacts.

(** X17.  [request] returns the body of the first of at most three
    attempts that is answered, and fails only when the three attempts
    fail, with the error of the third, whose message is never empty and
    whose status is 500 when the error carries none.  It waits 1000 ms
    after a first failure and 2000 ms after a second, and does not wait
    after the third. *)
Theorem request_retries :
  forall (T : Type) (fetch : nat -> fetched T),
    (exists k body,
        (1 <= k <= 3)%nat
        /\ fetch k = Answered body
        /\ (forall j, (1 <= j < k)%nat -> failed (fetch j))
        /\ request fetch = (inl body, firstn (2 * k - 1) schedule))
    \/ (exists message status,
          fetch 3%nat = Failed message status
          /\ failed (fetch 1%nat) /\ failed (fetch 2%nat)
          /\ request fetch = (inr (thrown message status), schedule)
          /\ ApiError.message (thrown message status) <> []
          /\ ApiError.status (thrown message status)
             = Some (match status with Some n => n | None => 500%Z end)).
Proof.
  intros T fetch. unfold request. simpl.
  destruct (fetch 1%nat) as [b1|m1 s1] eqn:E1.
  { left. exists 1%nat, b1.
    refine (conj _ (conj E1 (conj _ eq_refl))); [lia|].
    intros j Hj. lia. }
  destruct (fetch 2%nat) as [b2|m2 s2] eqn:E2.
  { left. exists 2%nat, b2.
    refine (conj _ (conj E2 (conj _ eq_refl))); [lia|].
    intros j Hj. assert (j = 1%nat) by lia. subst j. now rewrite E1. }
  destruct (fetch 3%nat) as [b3|m3 s3] eqn:E3.
  { left. exists 3%nat, b3.
    refine (conj _ (conj E3 (conj _ eq_refl))); [lia|].
    intros j Hj. assert (j = 1 \/ j = 2)%nat as [->| ->] by lia;
      [now rewrite E1 | now rewrite E2]. }
  right. exists m3, s3.
  refine (conj eq_refl (conj I (conj I (conj eq_refl (conj _ eq_refl))))).
  apply (thrown_message m3 s3).
Qed.

(** X18.  [getEmployees] keeps the number, the order and the identifiers
    of the records it is given, leaves a record that has a department as it
    is, and gives the department 'General' to the others: no record it
    returns has an empty department, so the department filter built from
    them has no empty option.  Applying it twice changes nothing more. *)
Theorem getEmployees_departments :
  forall l : list Employee.t,
    List.length (getEmployees l) = List.length l
    /\ ids (getEmployees l) = ids l
    /\ (forall e, In e (getEmployees l) -> departmentOf e <> [])
    /\ (forall e, In e l -> departmentOf e <> [] -> In e (getEmployees l))
    /\ (forall e, In e l -> departmentOf e = [] ->
                  departmentOf (normalise e) = js "General")
    /\ getEmployees (getEmployees l) = getEmployees l
    /\ ~ In [] (availableDepartments (getEmployees l)).
Proof.
  intros l. unfold getEmployees.
  assert (F : forall e, In e (map normalise l) -> departmentOf e <> []).
  { intros e He. apply in_map_iff in He as [x [<- _]]. apply normalise_filled. }
  refine (conj _ (conj _ (conj F (conj _ (conj _ (conj _ _)))))).
  - apply length_map.
  - unfold ids. rewrite map_map. apply map_ext. intros e. reflexivity.
  - intros e He Hd. apply in_map_iff. exists e. split; [|exact He].
    now apply normalise_fixed.
  - intros e _ Hd. unfold departmentOf in *. unfold normalise. simpl.
    now rewrite Hd.
  - rewrite map_map. apply map_ext. intros e.
    apply normalise_fixed, normalise_filled.
  - intros H. apply availableDepartments_In in H as [e [He Hd]].
    now apply (F e He).
Qed.

Lemma getEmployees_departments_witness :
  In leanne mockEmployees
  /\ In leanne (getEmployees mockEmployees).
Proof.
  assert (H : In leanne mockEmployees) by now left.
  split; [exact H|].
  apply (proj1 (proj2 (proj2 (proj2 (getEmployees_departments mockEmployees))))
           leanne H).
  vm_compute. discriminate.
Defined.

(** X19.  The username [createEmployee] builds, and the one the body of
    [updateEmployee] carries, hold no white space; they are the same for
    the same name; and for a name whose lower-cased form holds no white
    space the username is that lower-cased form. *)
Theorem username_spaceless :
  forall (toLowerCase : jsstring -> jsstring) (d : EmployeeFormData.t)
         (response : Body.t) (now i : Z),
    let created := createEmployee toLowerCase d response now in
    let sent := updatedEmployee toLowerCase i d in
    spaceless (Employee.username created)
    /\ Employee.username sent = Employee.username created
    /\ (spaceless (toLowerCase (EmployeeFormData.name d)) ->
        Employee.username created = toLowerCase (EmployeeFormData.name d)).
Proof.
  intros toLowerCase d response now i created sent.
  refine (conj _ (conj eq_refl _)).
  - apply replace_spaces_spaceless.
  - intros H. simpl. now apply replace_spaces_fixed.
Qed.

Lemma username_spaceless_witness :
  spaceless (asciiLowerCase (js "Cher"))
  /\ Employee.username
       (createEmployee asciiLowerCase
          (EmployeeFormData.mk (js "Cher") (js "cher@example.com")
             (js "1-555-123-4567") (js "Sales")) (complete leanne) 0)
     = js "cher".
Proof.
  assert (H : spaceless (asciiLowerCase (js "Cher"))) by reflexivity.
  split; [exact H|].
  apply (proj2 (proj2 (username_spaceless asciiLowerCase
           (EmployeeFormData.mk (js "Cher") (js "cher@example.com")
              (js "1-555-123-4567") (js "Sales")) (complete leanne) 0 0)) H).
Defined.

(* ================================================================== *)
(** * Saving and deleting, record by record *)
(* ================================================================== *)

Section CollectionFacts.

Lemma spread_complete (x v : Employee.t) : spread x (complete v) = v.
Proof. destruct v; reflexivity. Qed.

Lemma spread_noKeys (x : Employee.t) : spread x noKeys = x.
Proof. destruct x; reflexivity. Qed.

Lemma applyUpdate_absent (e : Employee.t) (u : Body.t) (l : list Employee.t) :
  ~ In (Employee.id e) (ids l) -> applyUpdate e u l = l.
Proof.
  unfold applyUpdate, ids. induction l as [|x l IH]; simpl; [reflexivity|].
  intros H. destruct (Employee.id x =? Employee.id e)%Z eqn:E.
  - apply Z.eqb_eq in E. tauto.
  - rewrite IH by tauto. reflexivity.
Qed.

Lemma removeEmployee_absent (r : Employee.t) (l : list Employee.t) :
  ~ In (Employee.id r) (ids l) -> removeEmployee r l = l.
Proof.
  unfold removeEmployee, ids. induction l as [|x l IH]; simpl; [reflexivity|].
  intros H. destruct (Employee.id x =? Employee.id r)%Z eqn:E.
  - apply Z.eqb_eq in E. tauto.
  - simpl. rewrite IH by tauto. reflexivity.
Qed.

(** In a collection with distinct identifiers, the identifier of a record
    occurs neither before nor after it. *)
Lemma NoDup_ids_split (a b : list Employee.t) (x : Employee.t) :
  NoDup (ids (a ++ x :: b)) ->
  ~ In (Employee.id x) (ids a) /\ ~ In (Employee.id x) (ids b).
Proof.
  unfold ids. rewrite map_app. simpl. intros H.
  apply NoDup_remove_2 in H. rewrite in_app_iff in H. tauto.
Qed.

Lemma applyUpdate_at (e : Employee.t) (u : Body.t) (x : Employee.t)
    (a b : list Employee.t) :
  NoDup (ids (a ++ x :: b)) -> Employee.id x = Employee.id e ->
  applyUpdate e u (a ++ x :: b) = a ++ spread x u :: b.
Proof.
  intros Hn Hx. destruct (NoDup_ids_split a b x Hn) as [Ha Hb].
  rewrite Hx in Ha, Hb.
  unfold applyUpdate. rewrite map_app. simpl.
  fold (applyUpdate e u a) (applyUpdate e u b).
  rewrite (applyUpdate_absent e u a Ha), (applyUpdate_absent e u b Hb).
  apply Z.eqb_eq in Hx. now rewrite Hx.
Qed.

Lemma removeEmployee_at (r x : Employee.t) (a b : list Employee.t) :
  NoDup (ids (a ++ x :: b)) -> Employee.id x = Employee.id r ->
  removeEmployee r (a ++ x :: b) = a ++ b.
Proof.
  intros Hn Hx. destruct (NoDup_ids_split a b x Hn) as [Ha Hb].
  rewrite Hx in Ha, Hb.
  unfold removeEmployee. rewrite filter_app. simpl.
  fold (removeEmployee r a) (removeEmployee r b).
  rewrite (removeEmployee_absent r a Ha), (removeEmployee_absent r b Hb).
  apply Z.eqb_eq in Hx. now rewrite Hx.
Qed.



(** Two lists in strictly increasing order of identifier that hold the
    same records are the same list. *)
Lemma idLt_unique (l1 : list Employee.t) :
  forall l2, StronglySorted idLt l1 -> StronglySorted idLt l2 ->
             Permutation l1 l2 -> l1 = l2.
Proof.
  induction l1 as [|x t1 IH]; intros l2 H1 H2 P.
  - apply Permutation_nil in P. now subst.
  - destruct l2 as [|y t2].
    + apply Permutation_sym, Permutation_nil in P. discriminate.
    + inversion H1 as [|? ? S1 F1]; subst. inversion H2 as [|? ? S2 F2]; subst.
      rewrite Forall_forall in F1, F2.
      assert (x = y).
      { assert (Hx : In x (y :: t2))
          by (apply (Permutation_in _ P); now left).
        assert (Hy : In y (x :: t1))
          by (apply (Permutation_in _ (Permutation_sym P)); now left).
        destruct Hx as [->|Hx]; [reflexivity|].
        destruct Hy as [->|Hy]; [reflexivity|].
        specialize (F1 y Hy). specialize (F2 x Hx). unfold idLt in *. lia. }
      subst y. f_equal. apply IH; try assumption.
      now apply Permutation_cons_inv in P.
Qed.

End CollectionFacts.

(** X20.  A resolved save of an edit, on a collection with distinct
    identifiers: the record that carries the identifier of the edited one
    is replaced in place by that record under the answer of the server (a
    key the answer carries is taken from it, a key it lacks stays), whatever
    the draft holds; every other record keeps its place, and the form is
    closed.  An answer that carries every key replaces the record, an answer
    without keys leaves the collection as it is.  When no record carries
    that identifier the collection is left as it is. *)
Theorem update_in_place :
  forall (toLowerCase : jsstring -> jsstring) (render s : State)
         (d : EmployeeFormData.t) (now : Z) (e : Employee.t) (u : Body.t)
         (x : Employee.t) (a b : list Employee.t),
    editingEmployee render = Some e ->
    let s' := fst (handleFormSave toLowerCase render d now (Resolved u) s) in
    (employees s = a ++ x :: b ->
     NoDup (ids (employees s)) ->
     Employee.id x = Employee.id e ->
     employees s' = a ++ spread x u :: b)
    /\ (forall v, spread x (complete v) = v)
    /\ spread x noKeys = x
    /\ (~ In (Employee.id e) (ids (employees s)) ->
        employees s' = employees s)
    /\ List.length (employees s') = List.length (employees s)
    /\ showForm s' = false
    /\ editingEmployee s' = None
    /\ formLoading s' = false.
Proof.
  intros toLowerCase render s d now e u x a b He s'.
  assert (E : employees s' = applyUpdate e u (employees s)).
  { unfold s', handleFormSave. rewrite He. reflexivity. }
  refine (conj _ (conj (spread_complete x) (conj (spread_noKeys x)
            (conj _ (conj _ (conj eq_refl (conj eq_refl eq_refl))))))).
  - intros Hl Hn Hx. rewrite E, Hl. apply applyUpdate_at; [|exact Hx].
    now rewrite <- Hl.
  - intros Hout. rewrite E. now apply applyUpdate_absent.
  - rewrite E. unfold applyUpdate. apply length_map.
Qed.

Lemma update_in_place_witness :
  editingEmployee (handleEditEmployee ervin loaded) = Some ervin
  /\ employees (fst (handleFormSave asciiLowerCase
                       (handleEditEmployee ervin loaded) johnDoe 0
                       (Resolved (Body.mk None (Some (js "Ervin H. Howell"))
                                    None None None None None None))
                       (handleEditEmployee ervin loaded)))
     = [leanne] ++ spread ervin (Body.mk None (Some (js "Ervin H. Howell"))
                                   None None None None None None)
                :: [clementine].
Proof.
  split; [reflexivity|].
  refine (proj1 (update_in_place asciiLowerCase
                   (handleEditEmployee ervin loaded)
                   (handleEditEmployee ervin loaded) johnDoe 0 ervin
                   (Body.mk None (Some (js "Ervin H. Howell"))
                      None None None None None None)
                   ervin [leanne] [clementine] eq_refl)
            eq_refl _ eq_refl).
  repeat constructor; simpl; intuition discriminate.
Defined.

(** X21.  A resolved save of a new employee puts one record in front of
    the collection, the others untouched: the record [createEmployee]
    builds from the draft, under the number one more (as numbers add) than
    the greatest identifier of the collection the handler was created with,
    whatever identifier the answer carries; the draft can be read back from
    it; and the form is closed.  When that greatest identifier is a safe
    integer the new number is exactly one more, at least 1 and above every
    record of that collection.  A rejected save changes only the loading
    flag and throws the error again. *)
Theorem create_in_front :
  forall (toLowerCase : jsstring -> jsstring) (render s : State)
         (d : EmployeeFormData.t) (now : Z) (response : Body.t)
         (err : ApiError.t),
    editingEmployee render = None ->
    let s' :=
      fst (handleFormSave toLowerCase render d now (Resolved response) s) in
    let maxId := Math_max (ids (employees render)) 0 in
    let n := withId (createEmployee toLowerCase d response now)
                    (addNumber maxId 1) in
    employees s' = n :: employees s
    /\ formDataOf n = d
    /\ ((maxId <= MAX_SAFE_INTEGER)%Z ->
        Employee.id n = (maxId + 1)%Z
        /\ (1 <= Employee.id n)%Z
        /\ (forall x, In x (employees render) ->
                      (Employee.id x < Employee.id n)%Z))
    /\ showForm s' = false
    /\ editingEmployee s' = None
    /\ formLoading s' = false
    /\ handleFormSave toLowerCase render d now (Rejected err) s
       = (setFormLoading false s, Some err).
Proof.
  intros toLowerCase render s d now response err He s' maxId n.
  refine (conj _ (conj _ (conj _
            (conj eq_refl (conj eq_refl (conj eq_refl eq_refl)))))).
  - unfold s', handleFormSave. rewrite He. reflexivity.
  - destruct d; reflexivity.
  - intros Hsafe.
    assert (H0 : (0 <= maxId)%Z) by apply Math_max_base.
    assert (E : Employee.id n = (maxId + 1)%Z).
    { change (Employee.id n) with (addNumber maxId 1).
      apply addNumber_safe. split; assumption. }
    refine (conj E (conj _ _)); [lia|].
    intros x Hx. rewrite E.
    assert (Employee.id x <= maxId)%Z; [|lia].
    apply Math_max_ge. unfold ids. now apply in_map.
Qed.

Lemma create_in_front_witness :
  editingEmployee (handleAddEmployee loaded) = None
  /\ (Math_max (ids (employees (handleAddEmployee loaded))) 0
      <= MAX_SAFE_INTEGER)%Z
  /\ Employee.id
       (withId (createEmployee asciiLowerCase johnDoe (complete leanne) 0)
          (addNumber
             (Math_max (ids (employees (handleAddEmployee loaded))) 0) 1))
     = (Math_max (ids (employees (handleAddEmployee loaded))) 0 + 1)%Z.
Proof.
  assert (Hsafe : (Math_max (ids (employees (handleAddEmployee loaded))) 0
                   <= MAX_SAFE_INTEGER)%Z) by (vm_compute; discriminate).
  refine (conj eq_refl (conj Hsafe _)).
  apply (proj1 (proj2 (proj2 (create_in_front asciiLowerCase
           (handleAddEmployee loaded) (handleAddEmployee loaded)
           johnDoe 0 (complete leanne) networkError eq_refl)))).
  exact Hsafe.
Defined.



(** X23.  On a collection with distinct identifiers, a confirmed delete of
    one of its records whose call resolves removes that record and no
    other: the records before it and after it stay, in their order, and the
    error cell is not touched. *)
Theorem resolved_delete_removes_one :
  forall (s : State) (r : Employee.t) (a b : list Employee.t),
    employees s = a ++ r :: b ->
    NoDup (ids (employees s)) ->
    let s' := snd (fst (handleDeleteEmployee true None r s)) in
    employees s' = a ++ b
    /\ S (List.length (employees s')) = List.length (employees s)
    /\ error s' = error s
    /\ snd (handleDeleteEmployee true None r s)
       = [ Ev_confirm (confirmPrompt r);
           Ev_setEmployees (a ++ b);
           Ev_deleteEmployee (Employee.id r) ].
Proof.
  intros s r a b E Hn s'.
  assert (R : removeEmployee r (employees s) = a ++ b).
  { rewrite E. apply removeEmployee_at; [|reflexivity]. now rewrite <- E. }
  assert (Es : employees s' = a ++ b) by exact R.
  refine (conj Es (conj _ (conj eq_refl _))).
  - rewrite Es, E, !length_app. simpl. lia.
  - unfold handleDeleteEmployee, bind, window_confirm, do_setEmployees,
      await_deleteEmployee, ret. simpl. now rewrite R.
Qed.

Lemma resolved_delete_removes_one_witness :
  employees loaded = [leanne] ++ ervin :: [clementine]
  /\ employees (snd (fst (handleDeleteEmployee true None ervin loaded)))
     = [leanne; clementine].
Proof.
  split; [reflexivity|].
  apply (resolved_delete_removes_one loaded ervin [leanne] [clementine] eq_refl).
  repeat constructor; simpl; intuition discriminate.
Defined.

(* ================================================================== *)
(** * The search term, and the two directions of a sort *)
(* ================================================================== *)

Section SearchFacts.
Variable toLowerCase : jsstring -> jsstring.
Hypothesis toLowerCase_empty : toLowerCase [] = [].

Lemma passesb_normalised (t1 t2 category : jsstring) (e : Employee.t) :
  normalised toLowerCase t1 = normalised toLowerCase t2 ->
  passesb toLowerCase t1 category e = passesb toLowerCase t2 category e.
Proof. intros E. unfold passesb. now rewrite E. Qed.

Lemma filteredEmployees_normalised (l : list Employee.t)
    (t1 t2 category : jsstring) :
  normalised toLowerCase t1 = normalised toLowerCase t2 ->
  filteredEmployees toLowerCase l t1 category
  = filteredEmployees toLowerCase l t2 category.
Proof.
  intros E.
  rewrite !(filteredEmployees_filter toLowerCase toLowerCase_empty).
  apply filter_ext. intros e. now apply passesb_normalised.
Qed.

Lemma filteredEmployees_blank (l : list Employee.t) (t category : jsstring) :
  normalised toLowerCase t = [] ->
  filteredEmployees toLowerCase l t category
  = filteredEmployees toLowerCase l [] category.
Proof.
  intros E. apply filteredEmployees_normalised.
  rewrite E. unfold normalised. now rewrite toLowerCase_empty.
Qed.

End SearchFacts.

(** X24.  The search depends on the term only through its lower-cased and
    trimmed form: two terms with the same such form keep the same records,
    and a term whose form is empty keeps what the empty term keeps.  The
    two filters compose: filtering by term and category is filtering by
    term, then by category. *)
Theorem search_term_normalised :
  forall (toLowerCase : jsstring -> jsstring) (l : list Employee.t)
         (t1 t2 category : jsstring),
    toLowerCase [] = [] ->
    (normalised toLowerCase t1 = normalised toLowerCase t2 ->
     filteredEmployees toLowerCase l t1 category
     = filteredEmployees toLowerCase l t2 category)
    /\ (normalised toLowerCase t1 = [] ->
        filteredEmployees toLowerCase l t1 category
        = filteredEmployees toLowerCase l [] category)
    /\ filteredEmployees toLowerCase l t1 category
       = filteredEmployees toLowerCase
           (filteredEmployees toLowerCase l t1 []) [] category.
Proof.
  intros toLowerCase l t1 t2 category H.
  refine (conj _ (conj _ _)).
  - now apply filteredEmployees_normalised.
  - now apply filteredEmployees_blank.
  - unfold filteredEmployees. simpl. reflexivity.
Qed.

Lemma search_term_normalised_witness :
  asciiLowerCase [] = []
  /\ filteredEmployees asciiLowerCase mockEmployees (js "  ERVIN ") []
     = filteredEmployees asciiLowerCase mockEmployees (js "ervin") [].
Proof.
  split; [reflexivity|].
  apply (proj1 (search_term_normalised asciiLowerCase mockEmployees
                  (js "  ERVIN ") (js "ervin") [] eq_refl)).
  vm_compute. reflexivity.
Defined.

Section Directions.

Lemma StronglySorted_snoc (A : Type) (R : A -> A -> Prop) (l : list A) (x : A) :
  StronglySorted R l -> Forall (fun y => R y x) l ->
  StronglySorted R (l ++ [x]).
Proof.
  induction 1 as [|y l Hs IH Hy]; simpl; intros Hx.
  - repeat constructor.
  - inversion Hx; subst. constructor; [now apply IH|].
    apply Forall_app. split; [exact Hy | now repeat constructor].
Qed.

Lemma StronglySorted_rev (A : Type) (R : A -> A -> Prop) (l : list A) :
  StronglySorted R l -> StronglySorted (fun a b => R b a) (rev l).
Proof.
  induction 1 as [|x l Hs IH Hx]; simpl; [constructor|].
  apply StronglySorted_snoc; [exact IH|].
  rewrite Forall_forall in *. intros y Hy. apply Hx. now apply in_rev.
Qed.

(** In a list with distinct identifiers, an order that allows equal
    identifiers can be read as one that does not. *)
Lemma strict_by_ids (R Q : Employee.t -> Employee.t -> Prop)
    (l : list Employee.t) :
  NoDup (ids l) ->
  (forall a b, R a b -> Employee.id a <> Employee.id b -> Q a b) ->
  StronglySorted R l -> StronglySorted Q l.
Proof.
  intros Hn H Hs. induction Hs as [|x l Hs IH Hx]; constructor.
  - apply IH. now inversion Hn.
  - inversion Hn as [|? ? Hout _]; subst.
    rewrite Forall_forall in *. intros y Hy. apply H; [now apply Hx|].
    intros E. apply Hout. unfold ids. rewrite E. now apply in_map.
Qed.

Lemma sort_inOrder (toLowerCase : jsstring -> jsstring)
    (l : list Employee.t) (cfg : SortConfig) :
  StronglySorted (inOrder toLowerCase cfg)
    (sort (compareEmployees toLowerCase cfg) l).
Proof.
  apply Sorted_StronglySorted.
  - intros a b c. apply inOrder_trans.
  - pose proof (@sort_Sorted _ (compareEmployees toLowerCase cfg)
                  (compareEmployees_total toLowerCase cfg) l) as H.
    induction H as [|x s Hs IH Hd]; constructor; [exact IH|].
    destruct Hd; constructor. now apply compareEmployees_inOrder.
Qed.

End Directions.

(** X25.  On the identifier column, for records with distinct identifiers,
    the descending sort is the ascending sort read backwards. *)
Theorem sort_by_id_reverses :
  forall (toLowerCase : jsstring -> jsstring) (l : list Employee.t),
    NoDup (ids l) ->
    sortedEmployees toLowerCase l (Some (mkSort K_id desc))
    = rev (sortedEmployees toLowerCase l (Some (mkSort K_id asc))).
Proof.
  intros toLowerCase l Hn. simpl.
  set (up := sort (compareEmployees toLowerCase (mkSort K_id asc)) l).
  set (down := sort (compareEmployees toLowerCase (mkSort K_id desc)) l).
  assert (Pu : Permutation up l) by apply sort_perm.
  assert (Pd : Permutation down l) by apply sort_perm.
  assert (N : forall m, Permutation m l -> NoDup (ids m)).
  { intros m P. apply (Permutation_NoDup (l := ids l)); [|exact Hn].
    unfold ids. apply Permutation_map. now apply Permutation_sym. }
  assert (Su : StronglySorted idLt up).
  { apply (strict_by_ids (inOrder toLowerCase (mkSort K_id asc)));
      [now apply N | | apply sort_inOrder].
    intros a b. unfold inOrder, idLt. simpl. lia. }
  assert (Sd : StronglySorted idLt (rev down)).
  { apply (StronglySorted_rev _ (fun a b => idLt b a)).
    apply (strict_by_ids (inOrder toLowerCase (mkSort K_id desc)));
      [now apply N | | apply sort_inOrder].
    intros a b. unfold inOrder, idLt. simpl. lia. }
  assert (E : rev down = up).
  { apply idLt_unique; [exact Sd | exact Su|].
    eapply perm_trans; [apply Permutation_sym, Permutation_rev|].
    eapply perm_trans; [exact Pd | now apply Permutation_sym]. }
  rewrite <- E. symmetry. apply rev_involutive.
Qed.

Lemma sort_by_id_reverses_witness :
  NoDup (ids [ervin; clementine; leanne])
  /\ sortedEmployees asciiLowerCase [ervin; clementine; leanne]
       (Some (mkSort K_id desc))
     = rev [leanne; ervin; clementine].
Proof.
  assert (H : NoDup (ids [ervin; clementine; leanne]))
    by (repeat constructor; simpl; intuition discriminate).
  split; [exact H|].
  rewrite (sort_by_id_reverses asciiLowerCase [ervin; clementine; leanne] H).
  reflexivity.
Defined.

(* ================================================================== *)
(** * Identifiers under handlers that take turns *)
(* ================================================================== *)

(** X26.  Handlers that do not overtake one another keep the identifiers
    distinct.  From a collection with distinct identifiers, every sequence
    of creates issued from a render of the current collection whose
    identifiers are safe integers, updates whose answer carries the
    identifier of the edited record or none, deletes, and rollbacks that
    find the identifier of their record unused, ends in a collection with
    distinct identifiers; a rollback that follows its delete at once is such
    a rollback.  Such a create puts the new record, numbered one above the
    greatest identifier, in front of the untouched collection; such an
    update leaves the list of identifiers and every other record as they
    are; a delete keeps a subsequence; a rollback permutes the collection
    and the record put back. *)
Theorem identifiers_stay_unique :
  forall (l : list Employee.t) (ops : list op),
    NoDup (ids l) ->
    admissible_run l ops ->
    NoDup (ids (run ops l))
    /\ (forall n,
          admissible l (Create l n) ->
          run_op (Create l n) l = withId n (Math_max (ids l) 0 + 1) :: l
          /\ ~ In (Math_max (ids l) 0 + 1)%Z (ids l))
    /\ (forall e u,
          admissible l (Update e u) ->
          ids (run_op (Update e u) l) = ids l
          /\ forall x, In x l -> Employee.id x <> Employee.id e ->
                       In x (run_op (Update e u) l))
    /\ (forall r, subseq (run_op (Delete r) l) l)
    /\ (forall r, Permutation (run_op (Rollback r) l) (r :: l))
    /\ (forall r, admissible (run_op (Delete r) l) (Rollback r)).
Proof.
  intros l ops Hl Hops.
  split; [now apply run_NoDup|].
  split.
  { intros n [_ Hsafe]. destruct (addCreated_fresh l Hsafe) as [E Hfresh].
    simpl. unfold addCreated. rewrite <- E. split; [reflexivity | exact Hfresh]. }
  split.
  { intros e u Hu. split; [now apply applyUpdate_ids|].
    intros x. apply applyUpdate_others. }
  split; [intros r; apply filter_subseq|].
  split; [intros r; apply restoreEmployee_perm|].
  intros r. apply removeEmployee_gone.
Qed.

Lemma identifiers_stay_unique_witness :
  NoDup (ids mockEmployees)
  /\ NoDup (ids (run [Create mockEmployees created; Delete ervin;
                      Delete leanne; Rollback leanne]
                     mockEmployees)).
Proof.
  assert (H : NoDup (ids mockEmployees)).
  { repeat constructor; simpl; intuition discriminate. }
  split; [exact H|].
  apply (@identifiers_stay_unique mockEmployees
           [Create mockEmployees created; Delete ervin;
            Delete leanne; Rollback leanne] H).
  simpl. refine (conj (conj eq_refl _) (conj I (conj I (conj _ I)))).
  - vm_compute. discriminate.
  - vm_compute. intuition discriminate.
Defined.
